(** * Restaurant app audit: a shallow embedding of [rawalpindi_no_app_restaurants.py]

    The development follows the script top to bottom: the URL normaliser,
    the tiler, the Overpass retry loop, the tiled fetch with its
    [(type, id)] de-duplication, the website classifier, the restaurant
    de-duplication key and the two loops and the filter of [main].

    Conventions.
    - A Python [str] is a Rocq [string] read as a sequence of code points
      below 256; [isspace], [lower], [\s], [\w] and case-insensitive
      matching are Python's, restricted to that range.
    - A Python [float] is an IEEE binary64 value, [spec_float] of the
      Standard Library with [prec = 53] and [emax = 1024].
    - Code outside the script (requests, BeautifulSoup, [urljoin], [round],
      the [str] of a float, the bracketed-host check of [urlsplit]) is a
      field of the record [World]; a call that may raise returns
      [exn + A].
    - Requests and pauses are effects of the monad [IO], which counts the
      requests made and keeps their trace; [print] and the writing of the
      two CSV files are left out. *)

From Stdlib Require Import ZArith QArith Qround Lqa Lia String Ascii List Bool DecimalString.
From Stdlib Require Import Floats.SpecFloat.
From stdpp Require Import base option gmap strings list.

#[local] Set Warnings "-clear-no-such-hyp".

Open Scope Z_scope.

(** ** Python strings *)

Module PyStr.

Definition code (c : ascii) : N := N_of_ascii c.

Definition between (lo hi : N) (c : ascii) : bool :=
  ((lo <=? code c) && (code c <=? hi))%N.

(** [str.isspace] on one code point below 256. *)
Definition isspace (c : ascii) : bool :=
  between 9 13 c || between 28 32 c || (code c =? 133)%N || (code c =? 160)%N.

Definition is_ascii_upper (c : ascii) : bool := between 65 90 c.
Definition is_ascii_lower (c : ascii) : bool := between 97 122 c.
Definition is_ascii_alpha (c : ascii) : bool := is_ascii_upper c || is_ascii_lower c.
Definition is_ascii_digit (c : ascii) : bool := between 48 57 c.

(** Upper-case code points below 256: A-Z and the Latin-1 capitals
    0xC0-0xDE without the multiplication sign 0xD7. *)
Definition is_upper (c : ascii) : bool :=
  is_ascii_upper c || (between 192 222 c && negb (code c =? 215)%N).

Definition lower_char (c : ascii) : ascii :=
  if is_upper c then ascii_of_N (code c + 32) else c.

Fixpoint lower (s : string) : string :=
  match s with
  | EmptyString => EmptyString
  | String c s' => String (lower_char c) (lower s')
  end.

Fixpoint lstrip_by (p : ascii -> bool) (s : string) : string :=
  match s with
  | EmptyString => EmptyString
  | String c s' => if p c then lstrip_by p s' else s
  end.

Fixpoint rstrip_by (p : ascii -> bool) (s : string) : string :=
  match s with
  | EmptyString => EmptyString
  | String c s' =>
      match rstrip_by p s' with
      | EmptyString => if p c then EmptyString else String c EmptyString
      | r => String c r
      end
  end.

(** [s.strip()] *)
Definition strip (s : string) : string := rstrip_by isspace (lstrip_by isspace s).

(** [s.startswith(p)] *)
Definition startswith (p s : string) : bool := String.prefix p s.

(** [c in s] *)
Fixpoint contains (c : ascii) (s : string) : bool :=
  match s with
  | EmptyString => false
  | String d s' => Ascii.eqb c d || contains c s'
  end.

Fixpoint filter_chars (p : ascii -> bool) (s : string) : string :=
  match s with
  | EmptyString => EmptyString
  | String c s' => if p c then String c (filter_chars p s') else filter_chars p s'
  end.

Fixpoint forall_chars (p : ascii -> bool) (s : string) : bool :=
  match s with
  | EmptyString => true
  | String c s' => p c && forall_chars p s'
  end.

(** The longest prefix free of the characters [p], and the rest. *)
Fixpoint break_at (p : ascii -> bool) (s : string) : string * string :=
  match s with
  | EmptyString => (EmptyString, EmptyString)
  | String c s' =>
      if p c then (EmptyString, s)
      else let '(a, b) := break_at p s' in (String c a, b)
  end.

(** [sep.join(parts)] *)
Fixpoint join (sep : string) (parts : list string) : string :=
  match parts with
  | [] => EmptyString
  | [p] => p
  | p :: rest => p +:+ sep +:+ join sep rest
  end.

(** Truthiness of a string: non-empty. *)
Definition truthy (s : string) : bool :=
  match s with EmptyString => false | _ => true end.

(** [str(z)] of an [int]. *)
Definition str_int (z : Z) : string := NilZero.string_of_int (Z.to_int z).

End PyStr.

(** ** Python floats: binary64 *)

Abbreviation float := spec_float.

Module PyFloat.

Definition prec : Z := 53.
Definition emax : Z := 1024.

Definition of_int (z : Z) : float := binary_normalize prec emax z 0 false.
Definition add : float -> float -> float := SFadd prec emax.
Definition sub : float -> float -> float := SFsub prec emax.
Definition mul : float -> float -> float := SFmul prec emax.
Definition div : float -> float -> float := SFdiv prec emax.
Definition leb : float -> float -> bool := SFleb.
Definition eqb : float -> float -> bool := SFeqb.

(** The float denoted by a decimal literal [n / 10^k] with both [n] and
    [10^k] below [2^53]: the correctly rounded quotient of two exactly
    represented integers. *)
Definition decimal (n : Z) (k : nat) : float := div (of_int n) (of_int (10 ^ Z.of_nat k)).

(** Nearest integer to [num / den] ([den > 0], [num >= 0]), ties to even. *)
Definition round_half_even (num den : Z) : Z :=
  let q := num / den in
  let r := num mod den in
  match 2 * r ?= den with
  | Lt => q
  | Gt => q + 1
  | Eq => if Z.even q then q else q + 1
  end.

Definition two_digits (z : Z) : string :=
  PyStr.str_int (z / 10) +:+ PyStr.str_int (z mod 10).

(** [f"{x:.2f}"]: the exact value of [x] rounded to hundredths, ties to
    even, printed with two fractional digits; the sign is kept even when
    the rounded magnitude is zero. *)
Definition format_2f (x : float) : string :=
  match x with
  | S754_zero s => (if s then "-" else "") +:+ "0.00"
  | S754_infinity s => if s then "-inf" else "inf"
  | S754_nan => "nan"
  | S754_finite s m e =>
      let h :=
        if 0 <=? e then Z.pos m * 2 ^ e * 100
        else round_half_even (Z.pos m * 100) (2 ^ (- e)) in
      (if s then "-" else "") +:+ PyStr.str_int (h / 100) +:+ "." +:+ two_digits (h mod 100)
  end.

Definition digit_value (c : ascii) : option Z :=
  if PyStr.is_ascii_digit c then Some (Z.of_N (PyStr.code c) - 48) else None.

(** Value of a non-empty run of decimal digits, continuing from [acc]. *)
Fixpoint digits_value (acc : Z) (s : string) : option Z :=
  match s with
  | EmptyString => Some acc
  | String c s' =>
      match digit_value c with
      | Some d => digits_value (10 * acc + d) s'
      | None => None
      end
  end.

(** [float(s)] on plain decimal numerals: an optional minus sign, one or
    more digits, and optionally a point followed by one or more digits,
    at most 15 digits in all, where the conversion below is Python's
    correctly rounded one.  [None] stands for [ValueError] and for every
    form of numeral left out here. *)
Definition float_of_string (s : string) : option float :=
  let '(neg, body) :=
    match s with
    | String "-"%char r => (true, r)
    | _ => (false, s)
    end in
  let '(ip, rest) := PyStr.break_at (Ascii.eqb ".") body in
  let fp := match rest with String _ r => r | EmptyString => EmptyString end in
  let pointless := match rest with EmptyString => true | _ => false end in
  if negb (PyStr.truthy ip) then None
  else if negb pointless && negb (PyStr.truthy fp) then None
  else if (15 <? String.length ip + String.length fp)%nat then None
  else
    match digits_value 0 (ip +:+ fp) with
    | None => None
    | Some n =>
        let v := decimal n (String.length fp) in
        Some (if neg then SFopp v else v)
    end.

End PyFloat.

#[global] Arguments PyFloat.of_int : simpl never.
#[global] Arguments PyFloat.decimal : simpl never.
#[global] Arguments PyFloat.format_2f : simpl never.
#[global] Arguments PyFloat.float_of_string : simpl never.
#[global] Arguments PyFloat.add : simpl never.
#[global] Arguments PyFloat.sub : simpl never.
#[global] Arguments PyFloat.mul : simpl never.
#[global] Arguments PyFloat.div : simpl never.

(** ** Regular expressions

    A matcher maps a position of the subject (the character before it and
    the text after it) to the positions where a match may end, earliest
    alternative first, as a backtracking engine explores them. *)

Module Re.

Definition pos : Type := option ascii * string.
Definition matcher : Type := pos -> list pos.

Definition eps : matcher := fun p => [p].

Definition char_if (p : ascii -> bool) : matcher :=
  fun '(_, s) =>
    match s with
    | String c s' => if p c then [(Some c, s')] else []
    | EmptyString => []
    end.

Definition seq (a b : matcher) : matcher := fun p => flat_map b (a p).
Definition alt (a b : matcher) : matcher := fun p => a p ++ b p.
Definition opt (a : matcher) : matcher := alt a eps.

(** A literal character under [re.I]. *)
Definition ci (c : ascii) : ascii -> bool :=
  fun d => Ascii.eqb (PyStr.lower_char c) (PyStr.lower_char d).

Fixpoint lit (s : string) : matcher :=
  match s with
  | EmptyString => eps
  | String c s' => seq (char_if (ci c)) (lit s')
  end.

Fixpoint many1_from (cls : ascii -> bool) (s : string) : list pos :=
  match s with
  | String c s' => if cls c then many1_from cls s' ++ [(Some c, s')] else []
  | EmptyString => []
  end.

(** [cls+], greedy. *)
Definition many1 (cls : ascii -> bool) : matcher := fun '(_, s) => many1_from cls s.

(** [\w] on code points below 256. *)
Definition is_word (c : ascii) : bool :=
  PyStr.is_ascii_alpha c || PyStr.is_ascii_digit c || Ascii.eqb c "_"
  || (PyStr.code c =? 170)%N || PyStr.between 178 179 c || (PyStr.code c =? 181)%N
  || PyStr.between 185 186 c || PyStr.between 188 190 c
  || PyStr.between 192 214 c || PyStr.between 216 246 c || PyStr.between 248 255 c.

(** [\b] *)
Definition word_boundary : matcher :=
  fun '(prev, s) =>
    let before := match prev with Some c => is_word c | None => false end in
    let after := match s with String c _ => is_word c | EmptyString => false end in
    if xorb before after then [(prev, s)] else [].

Definition matches_at (m : matcher) (p : pos) : bool :=
  match m p with [] => false | _ => true end.

Fixpoint search_from (m : matcher) (prev : option ascii) (s : string) : bool :=
  matches_at m (prev, s)
  || match s with
     | String c s' => search_from m (Some c) s'
     | EmptyString => false
     end.

(** [bool(pattern.search(s))] *)
Definition search (m : matcher) (s : string) : bool := search_from m None s.

End Re.

(** [[A-Za-z0-9\._]] *)
Definition package_char (c : ascii) : bool :=
  PyStr.is_ascii_alpha c || PyStr.is_ascii_digit c || Ascii.eqb c "." || Ascii.eqb c "_".

(** [https?://play\.google\.com/store/apps/details\?id=[A-Za-z0-9\._]+], [re.I] *)
Definition PLAYSTORE_RE : Re.matcher :=
  Re.seq (Re.lit "http")
    (Re.seq (Re.opt (Re.lit "s"))
       (Re.seq (Re.lit "://play.google.com/store/apps/details?id=")
          (Re.many1 package_char))).

(** [https?://apps\.apple\.com/], [re.I] *)
Definition APPLE_APPS_RE : Re.matcher :=
  Re.seq (Re.lit "http") (Re.seq (Re.opt (Re.lit "s")) (Re.lit "://apps.apple.com/")).

Definition spaces : Re.matcher := Re.many1 PyStr.isspace.

(** [\b(download\s+our\s+app|get\s+the\s+app|our\s+app)\b], [re.I] *)
Definition APP_TEXT_HINT_RE : Re.matcher :=
  Re.seq Re.word_boundary
    (Re.seq
       (Re.alt
          (Re.seq (Re.lit "download")
             (Re.seq spaces (Re.seq (Re.lit "our") (Re.seq spaces (Re.lit "app")))))
          (Re.alt
             (Re.seq (Re.lit "get")
                (Re.seq spaces (Re.seq (Re.lit "the") (Re.seq spaces (Re.lit "app")))))
             (Re.seq (Re.lit "our") (Re.seq spaces (Re.lit "app")))))
       Re.word_boundary).

(** ** Data model *)

(** A raised exception: an instance of [requests.RequestException] or of
    any other subclass of [Exception], with the name of its class and its
    [str]. *)
Inductive exn : Type :=
  | RequestException (type_name message : string)
  | OtherException (type_name message : string).

(** The [center] object of a way or a relation. *)
Record Center : Type := {
  c_lat : option float;
  c_lon : option float }.

(** One element of an Overpass answer; [None] is an absent key. *)
Record Element : Type := {
  el_type : option string;
  el_id : option Z;
  el_lat : option float;
  el_lon : option float;
  el_center : option Center;
  el_tags : option (gmap string string) }.

(** The decoded body of an Overpass answer. *)
Record OverpassData : Type := {
  elements : option (list Element) }.

(** What [requests.post] returns: the status and the outcome of [r.json()]. *)
Record PostResponse : Type := {
  post_status_code : Z;
  post_json : exn + OverpassData }.

(** What [requests.get] returns. *)
Record GetResponse : Type := {
  resp_status_code : Z;
  resp_text : string;
  resp_url : string }.

(** A parsed page: the [href] values of [soup.select("a[href]")] in
    document order and [soup.get_text(" ", strip=True)]. *)
Record Soup : Type := {
  select_a_href : exn + list string;
  get_text : exn + string }.

(** The entries of [restaurants]; an absent coordinate or id is the empty
    string of the script. *)
Record Restaurant : Type := {
  name : string;
  address : string;
  phone : string;
  website : string;
  lat : option float;
  lon : option float;
  source : string;
  osm_type : string;
  osm_id : option Z }.

(** The dictionary [result] of the classifier. *)
Record AppInfo : Type := {
  has_android_app : bool;
  has_ios_app : bool;
  evidence_android_url : option string;
  evidence_ios_url : option string;
  notes : string;
  confidence : float }.

(** The entries of [audit_rows]: the restaurant and the flattened verdict. *)
Record AuditRow : Type := {
  restaurant : Restaurant;
  row_has_android_app : Z;
  row_has_ios_app : Z;
  row_has_any_app : Z;
  row_evidence_android_url : string;
  row_evidence_ios_url : string;
  row_notes : string;
  row_confidence : string }.

(** ** The world outside the script *)

Record World : Type := {
  (** validation of a bracketed host by [urlsplit]; [false] is [ValueError] *)
  check_bracketed_netloc : string -> bool;
  (** [urljoin(base, url)] *)
  urljoin : string -> string -> exn + string;
  (** [round(x, ndigits)] *)
  py_round : float -> Z -> float;
  (** [str(x)] of a float, as an f-string renders it *)
  py_str : float -> string;
  (** the answer to the [k]-th HTTP request of the run when it is a POST of
      a query to an endpoint *)
  requests_post : nat -> string -> string -> exn + PostResponse;
  (** the answer to the [k]-th HTTP request of the run when it is a GET *)
  requests_get : nat -> string -> exn + GetResponse;
  (** [BeautifulSoup(text, "html.parser")] *)
  BeautifulSoup : string -> exn + Soup }.

(** ** Effects: requests made, time slept, exceptions *)

Inductive event : Type :=
  | Post (endpoint : string)
  | Get (target : string)
  | Sleep (seconds : float).

Record io_state : Type := {
  requests_made : nat;
  trace : list event }.

Definition IO (A : Type) : Type := io_state -> (exn + A) * io_state.

Definition ret {A} (a : A) : IO A := fun st => (inr a, st).

Definition raise {A} (e : exn) : IO A := fun st => (inl e, st).

Definition bind {A B} (m : IO A) (k : A -> IO B) : IO B :=
  fun st =>
    match m st with
    | (inr a, st') => k a st'
    | (inl e, st') => (inl e, st')
    end.

Declare Scope io_scope.
Delimit Scope io_scope with io.
Notation "x <- m ;; k" := (bind m (fun x => k))
  (at level 100, m at next level, right associativity) : io_scope.
Notation "m1 ;;; m2" := (bind m1 (fun _ => m2))
  (at level 100, right associativity) : io_scope.

(** [try: body  except Exception as e: handler e] *)
Definition try_except {A} (body : IO A) (handler : exn -> IO A) : IO A :=
  fun st =>
    match body st with
    | (inl e, st') => handler e st'
    | r => r
    end.

(** A pure call that may raise. *)
Definition lift {A} (r : exn + A) : IO A := fun st => (r, st).

Definition log (ev : event) (st : io_state) : io_state :=
  {| requests_made := requests_made st; trace := trace st ++ [ev] |}.

Definition tick (ev : event) (st : io_state) : io_state :=
  {| requests_made := S (requests_made st); trace := trace st ++ [ev] |}.

(** [time.sleep(s)] *)
Definition sleep (s : float) : IO unit := fun st => (inr tt, log (Sleep s) st).

(** [requests.post(endpoint, data=query, ...)] *)
Definition post (W : World) (endpoint query : string) : IO PostResponse :=
  fun st => (requests_post W (requests_made st) endpoint query, tick (Post endpoint) st).

(** [requests.get(url, ...)] *)
Definition get (W : World) (target : string) : IO GetResponse :=
  fun st => (requests_get W (requests_made st) target, tick (Get target) st).

(** ** CONFIG *)

Definition RAWALPINDI_BBOX : float * float * float * float :=
  (PyFloat.decimal 3355 2, PyFloat.decimal 7300 2, PyFloat.decimal 3370 2, PyFloat.decimal 7315 2).

Definition OVERPASS_ENDPOINTS : list string :=
  [ "https://overpass-api.de/api/interpreter";
    "https://overpass.kumi.systems/api/interpreter";
    "https://overpass.nchc.org.tw/api/interpreter" ].

(** Passed to every request; their effect is part of what the world
    answers. *)
Definition HTTP_TIMEOUT : Z := 30.
Definition USER_AGENT : string := "Mozilla/5.0 (compatible; RestaurantAppAudit/1.1)".

Definition TILE_ROWS : Z := 3.
Definition TILE_COLS : Z := 3.

Definition DELAY_BETWEEN_SITES_SEC : float := PyFloat.decimal 6 1.

(** ** HELPERS *)

Record ParseResult : Type := {
  scheme : string;
  netloc : string }.

Definition scheme_char (c : ascii) : bool :=
  PyStr.is_ascii_alpha c || PyStr.is_ascii_digit c
  || Ascii.eqb c "+" || Ascii.eqb c "-" || Ascii.eqb c ".".

Definition is_delim (c : ascii) : bool :=
  Ascii.eqb c "/" || Ascii.eqb c "?" || Ascii.eqb c "#".

(** The scheme and the network location that [urllib.parse.urlparse]
    computes; [None] is the [ValueError] it raises on a netloc with
    unbalanced or invalid brackets.  Its check of the netloc under NFKC
    normalisation never fails on code points below 256. *)
Definition urlparse (W : World) (u : string) : option ParseResult :=
  let u := PyStr.lstrip_by (fun c => (PyStr.code c <=? 32)%N) u in
  let u := PyStr.filter_chars
             (fun c => negb (Ascii.eqb c "009" || Ascii.eqb c "013" || Ascii.eqb c "010")) u in
  let '(sch, u) :=
    match PyStr.break_at (Ascii.eqb ":") u with
    | (String c0 pre, String _ rest) =>
        if PyStr.is_ascii_alpha c0 && PyStr.forall_chars scheme_char (String c0 pre)
        then (PyStr.lower (String c0 pre), rest)
        else (EmptyString, u)
    | _ => (EmptyString, u)
    end in
  match u with
  | String "/" (String "/" after) =>
      let loc := fst (PyStr.break_at is_delim after) in
      let lb := PyStr.contains "[" loc in
      let rb := PyStr.contains "]" loc in
      if xorb lb rb then None
      else if lb && rb && negb (check_bracketed_netloc W loc) then None
      else Some {| scheme := sch; netloc := loc |}
  | _ => Some {| scheme := sch; netloc := EmptyString |}
  end.

Definition normalize_url (W : World) (url : string) : option string :=
  if negb (PyStr.truthy url) then None
  else
    let url := PyStr.strip url in
    if negb (PyStr.truthy url) then None
    else
      let url :=
        if negb (PyStr.startswith "http://" url || PyStr.startswith "https://" url)
        then "https://" +:+ url
        else url in
      match urlparse W url with
      | None => None
      | Some parsed =>
          if negb (String.eqb (scheme parsed) "http" || String.eqb (scheme parsed) "https")
          then None
          else if negb (PyStr.truthy (netloc parsed)) then None
          else Some url
      end.

(** The arithmetic [tile_bbox] is run on: Python evaluates it on floats;
    the same text makes sense over the rationals. *)
Class Arith (F : Type) : Type := {
  num_add : F -> F -> F;
  num_sub : F -> F -> F;
  num_mul : F -> F -> F;
  num_div : F -> F -> F;
  num_of_int : Z -> F }.

Declare Scope num_scope.
Delimit Scope num_scope with num.
Infix "+" := num_add : num_scope.
Infix "-" := num_sub : num_scope.
Infix "*" := num_mul : num_scope.
Infix "/" := num_div : num_scope.

#[export] Instance float_arith : Arith float := {
  num_add := PyFloat.add;
  num_sub := PyFloat.sub;
  num_mul := PyFloat.mul;
  num_div := PyFloat.div;
  num_of_int := PyFloat.of_int }.


(** [range(n)] *)
Definition range (n : Z) : list Z := map Z.of_nat (List.seq 0 (Z.to_nat n)).

(** [range(lo, hi)] *)
Definition range_from (lo hi : Z) : list Z := map (Z.add lo) (range (hi - lo)).

Definition bbox (F : Type) : Type := (F * F * F * F)%type.

(** [None] is the [ZeroDivisionError] of a zero row or column count. *)
Definition tile_bbox {F : Type} `{Arith F} (b : bbox F) (rows cols : Z) : option (list (bbox F)) :=
  let '(s, w, n, e) := b in
  if rows =? 0 then None
  else
    let lat_step := ((n - s) / num_of_int rows)%num in
    if cols =? 0 then None
    else
      let lon_step := ((e - w) / num_of_int cols)%num in
      Some
        (flat_map
           (fun r =>
              map
                (fun c =>
                   let ts := (s + num_of_int r * lat_step)%num in
                   let tn := (s + num_of_int (r + 1) * lat_step)%num in
                   let tw := (w + num_of_int c * lon_step)%num in
                   let te := (w + num_of_int (c + 1) * lon_step)%num in
                   (ts, tw, tn, te))
                (range cols))
           (range rows)).

Definition nl : string := String "010" EmptyString.

Definition dq : string := String "034" EmptyString.

Definition overpass_query_for_bbox (W : World) (b : bbox float) : string :=
  let '(s, w, n, e) := b in
  let filter := "[" +:+ dq +:+ "amenity" +:+ dq +:+ "=" +:+ dq +:+ "restaurant" +:+ dq +:+ "]" in
  let box := "(" +:+ py_str W s +:+ "," +:+ py_str W w +:+ "," +:+ py_str W n +:+ ","
             +:+ py_str W e +:+ ");" in
  nl +:+ "    [out:json][timeout:60];" +:+ nl
  +:+ "    (" +:+ nl
  +:+ "      node" +:+ filter +:+ box +:+ nl
  +:+ "      way" +:+ filter +:+ box +:+ nl
  +:+ "      relation" +:+ filter +:+ box +:+ nl
  +:+ "    );" +:+ nl
  +:+ "    out center tags;" +:+ nl
  +:+ "    ".

Definition opt_str (o : option string) : string :=
  match o with Some s => s | None => "None" end.

(** The [try] block of one attempt: [inl data] when the function returns
    [data], [inr err] when [last_err] is set to [err]. *)
Definition attempt_body (W : World) (endpoint query : string) : IO (OverpassData + string) :=
  (r <- post W endpoint query ;;
   if post_status_code r =? 200
   then (data <- lift (post_json r) ;; ret (inl data))
   else ret (inr (endpoint +:+ " HTTP " +:+ PyStr.str_int (post_status_code r))))%io.

Definition attempt_once (W : World) (endpoint query : string) : IO (OverpassData + string) :=
  try_except (attempt_body W endpoint query)
    (fun e =>
       match e with
       | RequestException type_name message =>
           ret (inr (endpoint +:+ " " +:+ type_name +:+ ": " +:+ message))
       | OtherException _ _ => raise e
       end).

(** [for attempt in attempts] against one endpoint. *)
Fixpoint attempts_loop (W : World) (endpoint query : string) (attempts : list Z)
    (last_err : option string) : IO (OverpassData + option string) :=
  match attempts with
  | [] => ret (inr last_err)
  | attempt :: rest =>
      (r <- attempt_once W endpoint query ;;
       match r with
       | inl data => ret (inl data)
       | inr err =>
           let sleep_s := 2 ^ attempt in
           (sleep (PyFloat.of_int sleep_s) ;;;
            attempts_loop W endpoint query rest (Some err))
       end)%io
  end.

(** [for endpoint in endpoints] *)
Fixpoint endpoints_loop (W : World) (query : string) (max_attempts : Z)
    (endpoints : list string) (last_err : option string) : IO (OverpassData + option string) :=
  match endpoints with
  | [] => ret (inr last_err)
  | endpoint :: rest =>
      (r <- attempts_loop W endpoint query (range_from 1 (max_attempts + 1)) last_err ;;
       match r with
       | inl data => ret (inl data)
       | inr last_err' => endpoints_loop W query max_attempts rest last_err'
       end)%io
  end.

Definition overpass_post_with_retries (W : World) (query : string) (max_attempts : Z)
    : IO OverpassData :=
  (r <- endpoints_loop W query max_attempts OVERPASS_ENDPOINTS None ;;
   match r with
   | inl data => ret data
   | inr last_err =>
       raise (OtherException "RuntimeError"
                ("Overpass failed after retries. Last error: " +:+ opt_str last_err))
   end)%io.

Definition element_key (el : Element) : option string * option Z := (el_type el, el_id el).

(** [for el in elements]: the de-duplication by [(type, id)]. *)
Fixpoint dedupe_elements (els : list Element) (seen_ids : gset (option string * option Z))
    (all_elements : list Element) : gset (option string * option Z) * list Element :=
  match els with
  | [] => (seen_ids, all_elements)
  | el :: rest =>
      let key := element_key el in
      if decide (key ∈ seen_ids) then dedupe_elements rest seen_ids all_elements
      else dedupe_elements rest ({[key]} ∪ seen_ids) (all_elements ++ [el])
  end.

(** [for i, tb in enumerate(tiles, start=1)]; the query is posted with the
    default of 4 attempts. *)
Fixpoint tiles_loop (W : World) (tiles : list (bbox float))
    (seen_ids : gset (option string * option Z)) (all_elements : list Element)
    : IO (list Element) :=
  match tiles with
  | [] => ret all_elements
  | tb :: rest =>
      let query := overpass_query_for_bbox W tb in
      (data <- overpass_post_with_retries W query 4 ;;
       let els := default [] (elements data) in
       let '(seen_ids', all_elements') := dedupe_elements els seen_ids all_elements in
       (sleep (PyFloat.of_int 1) ;;;
        tiles_loop W rest seen_ids' all_elements'))%io
  end.

Definition overpass_fetch_restaurants_tiled (W : World) (main_bbox : bbox float)
    : IO (list Element) :=
  match tile_bbox main_bbox TILE_ROWS TILE_COLS with
  | None => raise (OtherException "ZeroDivisionError" "float division by zero")
  | Some tiles => tiles_loop W tiles ∅ []
  end.

(** [tags.get(k)] when it is truthy. *)
Definition tag (tags : gmap string string) (k : string) : option string :=
  match tags !! k with
  | Some v => if PyStr.truthy v then Some v else None
  | None => None
  end.

Definition extract_address (tags : gmap string string) : string :=
  PyStr.join ", " (omap (tag tags) ["addr:housenumber"; "addr:street"; "addr:suburb"; "addr:city"]).

Definition set_android (h : string) (r : AppInfo) : AppInfo :=
  {| has_android_app := true; has_ios_app := has_ios_app r;
     evidence_android_url := Some h; evidence_ios_url := evidence_ios_url r;
     notes := notes r; confidence := confidence r |}.

Definition set_ios (h : string) (r : AppInfo) : AppInfo :=
  {| has_android_app := has_android_app r; has_ios_app := true;
     evidence_android_url := evidence_android_url r; evidence_ios_url := Some h;
     notes := notes r; confidence := confidence r |}.

(** [result["notes"] = n; result["confidence"] = c] *)
Definition set_verdict (n : string) (c : float) (r : AppInfo) : AppInfo :=
  {| has_android_app := has_android_app r; has_ios_app := has_ios_app r;
     evidence_android_url := evidence_android_url r; evidence_ios_url := evidence_ios_url r;
     notes := n; confidence := c |}.

Definition initial_result : AppInfo :=
  {| has_android_app := false; has_ios_app := false;
     evidence_android_url := None; evidence_ios_url := None;
     notes := ""; confidence := S754_zero false |}.

(** [for a in soup.select("a[href]")]: the stripped, non-empty [href]
    values joined to the URL of the response. *)
Fixpoint collect_hrefs (W : World) (base : string) (anchors : list string)
    (hrefs : list string) : exn + list string :=
  match anchors with
  | [] => inr hrefs
  | a :: rest =>
      let href := PyStr.strip a in
      if PyStr.truthy href then
        match urljoin W base href with
        | inl e => inl e
        | inr h => collect_hrefs W base rest (hrefs ++ [h])
        end
      else collect_hrefs W base rest hrefs
  end.

(** [next((h for h in hrefs if pattern.search(h)), None)] *)
Definition first_match (pattern : Re.matcher) (hrefs : list string) : option string :=
  List.find (Re.search pattern) hrefs.

(** Truthiness of an optional string ([None] and the empty string are falsy). *)
Definition truthy_opt (o : option string) : bool :=
  match o with Some h => PyStr.truthy h | None => false end.

(** The [try] block of the classifier.  Every call that may raise comes
    before the first assignment to [result] on its path, so the handlers
    see [result] as it was initialised. *)
Definition scrape_body (W : World) (target : string) (result : AppInfo) : IO AppInfo :=
  (resp <- get W target ;;
   if 400 <=? resp_status_code resp
   then ret (set_verdict ("http_" +:+ PyStr.str_int (resp_status_code resp))
               (PyFloat.decimal 2 1) result)
   else
     soup <- lift (BeautifulSoup W (resp_text resp)) ;;
     anchors <- lift (select_a_href soup) ;;
     hrefs <- lift (collect_hrefs W (resp_url resp) anchors []) ;;
     let play := first_match PLAYSTORE_RE hrefs in
     let apple := first_match APPLE_APPS_RE hrefs in
     let result := if truthy_opt play then set_android (default "" play) result else result in
     let result := if truthy_opt apple then set_ios (default "" apple) result else result in
     if has_android_app result || has_ios_app result
     then ret (set_verdict "store_link_found_on_website" (PyFloat.decimal 95 2) result)
     else
       page_text <- lift (get_text soup) ;;
       if Re.search APP_TEXT_HINT_RE page_text
       then ret (set_verdict "app_text_hint_but_no_store_link" (PyFloat.decimal 6 1) result)
       else ret (set_verdict "no_store_links_found_on_homepage" (PyFloat.decimal 85 2) result))%io.

Definition scrape_website_for_app_links (W : World) (website_url : string) : IO AppInfo :=
  let result := initial_result in
  match normalize_url W website_url with
  | None => ret (set_verdict "invalid_website_url" (PyFloat.decimal 1 1) result)
  | Some target =>
      try_except (scrape_body W target result)
        (fun e =>
           match e with
           | RequestException type_name _ =>
               ret (set_verdict ("request_error:" +:+ type_name) (PyFloat.decimal 2 1) result)
           | OtherException type_name _ =>
               ret (set_verdict ("parse_error:" +:+ type_name) (PyFloat.decimal 2 1) result)
           end)
  end.

Definition dedupe_key (W : World) (name website : string) (lat lon : option float) : string :=
  let n := PyStr.lower (PyStr.strip name) in
  let w := PyStr.lower (PyStr.strip website) in
  match lat, lon with
  | Some la, Some lo =>
      n +:+ "|" +:+ w +:+ "|" +:+ py_str W (py_round W la 4) +:+ "|" +:+ py_str W (py_round W lo 4)
  | _, _ => n +:+ "|" +:+ w +:+ "|no_coords"
  end.

(** ** MAIN *)

(** [a or b] on optional strings. *)
Definition or_else (a b : option string) : option string :=
  match a with
  | Some v => if PyStr.truthy v then a else b
  | None => b
  end.

(** The body of the first loop of [main] up to the computation of the key:
    [None] when the element is skipped for want of a name, else the key
    and the record that is appended when the key is new. *)
Definition normalize_element (W : World) (el : Element) : option (string * Restaurant) :=
  let tags := default ∅ (el_tags el) in
  match tag tags "name" with
  | None => None
  | Some name =>
      let website := or_else (or_else (tags !! "website") (tags !! "contact:website")) (tags !! "url") in
      let website := if truthy_opt website then normalize_url W (default "" website) else None in
      let phone :=
        default "" (or_else (or_else (tags !! "phone") (tags !! "contact:phone")) (Some "")) in
      let address := extract_address tags in
      let '(lat, lon) :=
        match el_lat el, el_lon el with
        | Some la, Some lo => (Some la, Some lo)
        | _, _ =>
            let center := default {| c_lat := None; c_lon := None |} (el_center el) in
            (c_lat center, c_lon center)
        end in
      let key := dedupe_key W name (default "" website) lat lon in
      Some (key,
            {| name := name; address := address; phone := phone;
               website := default "" website; lat := lat; lon := lon;
               source := "OSM/Overpass";
               osm_type := default "" (el_type el);
               osm_id := el_id el |})
  end.

(** [for el in elements] *)
Fixpoint restaurants_loop (W : World) (els : list Element) (seen : gset string)
    (restaurants : list Restaurant) : list Restaurant :=
  match els with
  | [] => restaurants
  | el :: rest =>
      match normalize_element W el with
      | None => restaurants_loop W rest seen restaurants
      | Some (key, r) =>
          if decide (key ∈ seen) then restaurants_loop W rest seen restaurants
          else restaurants_loop W rest ({[key]} ∪ seen) (restaurants ++ [r])
      end
  end.

Definition no_website_verdict : AppInfo :=
  {| has_android_app := false; has_ios_app := false;
     evidence_android_url := None; evidence_ios_url := None;
     notes := "no_website_in_osm"; confidence := PyFloat.decimal 2 1 |}.

Definition audit_row (r : Restaurant) (appinfo : AppInfo) : AuditRow :=
  let has_any_app := has_android_app appinfo || has_ios_app appinfo in
  {| restaurant := r;
     row_has_android_app := Z.b2z (has_android_app appinfo);
     row_has_ios_app := Z.b2z (has_ios_app appinfo);
     row_has_any_app := Z.b2z has_any_app;
     row_evidence_android_url := default "" (evidence_android_url appinfo);
     row_evidence_ios_url := default "" (evidence_ios_url appinfo);
     row_notes := notes appinfo;
     row_confidence := PyFloat.format_2f (confidence appinfo) |}.

(** [for idx, r in enumerate(restaurants, start=1)] *)
Fixpoint audit_loop (W : World) (restaurants : list Restaurant) (audit_rows : list AuditRow)
    : IO (list AuditRow) :=
  match restaurants with
  | [] => ret audit_rows
  | r :: rest =>
      (appinfo <-
         (if PyStr.truthy (website r)
          then (a <- scrape_website_for_app_links W (website r) ;;
                sleep DELAY_BETWEEN_SITES_SEC ;;;
                ret a)
          else ret no_website_verdict) ;;
       audit_loop W rest (audit_rows ++ [audit_row r appinfo]))%io
  end.

Definition NO_APP_CONF_THRESHOLD : float := PyFloat.decimal 80 2.

Definition no_app_notes (n : string) : bool :=
  String.eqb n "no_store_links_found_on_homepage"
  || String.eqb n "app_text_hint_but_no_store_link".

(** The condition of the comprehension, evaluated left to right; [None] is
    the [ValueError] of [float]. *)
Definition keep_no_app (row : AuditRow) : option bool :=
  if negb (PyStr.truthy (website (restaurant row))) then Some false
  else if negb (row_has_any_app row =? 0) then Some false
  else
    match PyFloat.float_of_string (row_confidence row) with
    | None => None
    | Some c =>
        Some (PyFloat.leb NO_APP_CONF_THRESHOLD c && no_app_notes (row_notes row))
    end.

(** [[row for row in audit_rows if ...]] *)
Fixpoint no_app_rows (audit_rows : list AuditRow) : option (list AuditRow) :=
  match audit_rows with
  | [] => Some []
  | row :: rest =>
      match keep_no_app row with
      | None => None
      | Some keep =>
          match no_app_rows rest with
          | None => None
          | Some kept => Some (if keep then row :: kept else kept)
          end
      end
  end.

(** [main], up to the two lists it writes out: the full audit and the
    no-app subset. *)
Definition main (W : World) : IO (list AuditRow * list AuditRow) :=
  (els <- overpass_fetch_restaurants_tiled W RAWALPINDI_BBOX ;;
   let restaurants := restaurants_loop W els ∅ [] in
   audit_rows <- audit_loop W restaurants [] ;;
   match no_app_rows audit_rows with
   | None => raise (OtherException "ValueError" "could not convert string to float")
   | Some rows => ret (audit_rows, rows)
   end)%io.

Definition start : io_state := {| requests_made := 0; trace := [] |}.

(** ** Specification vocabulary *)

(** The condition of the no-app subset, as the specification words it. *)
Definition no_app_condition (row : AuditRow) : Prop :=
  website (restaurant row) <> ""
  /\ row_has_any_app row = 0
  /\ (exists c, PyFloat.float_of_string (row_confidence row) = Some c
                /\ PyFloat.leb NO_APP_CONF_THRESHOLD c = true)
  /\ (row_notes row = "no_store_links_found_on_homepage"
      \/ row_notes row = "app_text_hint_but_no_store_link").

(** A verdict without evidence. *)
Definition no_evidence (a : AppInfo) : Prop :=
  has_android_app a = false /\ has_ios_app a = false
  /\ evidence_android_url a = None /\ evidence_ios_url a = None.

(** The notes codes and the confidence each one comes with. *)
Inductive verdict_kind (a : AppInfo) : Prop :=
  | invalid_website_url :
      notes a = "invalid_website_url" -> confidence a = PyFloat.decimal 1 1 ->
      no_evidence a -> verdict_kind a
  | request_error (kind : string) :
      notes a = "request_error:" +:+ kind -> confidence a = PyFloat.decimal 2 1 ->
      no_evidence a -> verdict_kind a
  | http_status (status : Z) :
      notes a = "http_" +:+ PyStr.str_int status -> confidence a = PyFloat.decimal 2 1 ->
      no_evidence a -> verdict_kind a
  | parse_error (kind : string) :
      notes a = "parse_error:" +:+ kind -> confidence a = PyFloat.decimal 2 1 ->
      no_evidence a -> verdict_kind a
  | no_website_in_osm :
      notes a = "no_website_in_osm" -> confidence a = PyFloat.decimal 2 1 ->
      no_evidence a -> verdict_kind a
  | store_link_found_on_website :
      notes a = "store_link_found_on_website" -> confidence a = PyFloat.decimal 95 2 ->
      has_android_app a || has_ios_app a = true -> verdict_kind a
  | app_text_hint_but_no_store_link :
      notes a = "app_text_hint_but_no_store_link" -> confidence a = PyFloat.decimal 6 1 ->
      no_evidence a -> verdict_kind a
  | no_store_links_found_on_homepage :
      notes a = "no_store_links_found_on_homepage" -> confidence a = PyFloat.decimal 85 2 ->
      no_evidence a -> verdict_kind a.

(** [h] is the first element of [hrefs] that the pattern matches. *)
Definition first_matching (pattern : Re.matcher) (hrefs : list string) (h : string) : Prop :=
  exists pre post,
    hrefs = pre ++ h :: post
    /\ Re.search pattern h = true
    /\ forall x, In x pre -> Re.search pattern x = false.

(** The first of the tags [keys] that is present with a non-empty value. *)
Definition first_present (tags : gmap string string) (keys : list string) : option string :=
  head (omap (tag tags) keys).

(** The element of the specification's example. *)
Definition cafe_x : Element :=
  {| el_type := Some "node"; el_id := Some 1;
     el_lat := Some (PyFloat.decimal 336 1); el_lon := Some (PyFloat.decimal 7305 2);
     el_center := None;
     el_tags := Some {[ "name" := "Cafe X"; "website" := "cafex.com" ]} |}.

(** The candidates that survive a seen-set loop started with [seen]: a
    candidate is kept when its key is neither in [seen] nor the key of an
    earlier candidate. *)
Fixpoint first_seen {K A : Type} `{Countable K} (seen : gset K) (cands : list (K * A))
    : list (K * A) :=
  match cands with
  | [] => []
  | (k, a) :: rest =>
      if decide (k ∈ seen) then first_seen seen rest
      else (k, a) :: first_seen ({[k]} ∪ seen) rest
  end.

Definition keyed (els : list Element) : list ((option string * option Z) * Element) :=
  map (fun el => (element_key el, el)) els.

(** The element lists the tiles answer with, in fetch order: the same
    requests and pauses as [tiles_loop], without the de-duplication. *)
Fixpoint tile_lists (W : World) (tiles : list (bbox float)) : IO (list (list Element)) :=
  match tiles with
  | [] => ret []
  | tb :: rest =>
      (data <- overpass_post_with_retries W (overpass_query_for_bbox W tb) 4 ;;
       sleep (PyFloat.of_int 1) ;;;
       lists <- tile_lists W rest ;;
       ret (default [] (elements data) :: lists))%io
  end.

(** The de-duplication key of a restaurant record. *)
Definition row_key (W : World) (r : Restaurant) : string :=
  dedupe_key W (name r) (website r) (lat r) (lon r).

(** The coordinates of a record rounded to 4 places, when it has both. *)
Definition rounded (W : World) (r : Restaurant) : option (float * float) :=
  match lat r, lon r with
  | Some la, Some lo => Some (py_round W la 4, py_round W lo 4)
  | _, _ => None
  end.

(** Two records agree on what the key is built from: the lower-cased
    stripped name, the lower-cased stripped website, and the rounded
    coordinates compared as numbers ([==] on floats), or the absence of
    coordinates. *)
Definition same_identity (W : World) (r1 r2 : Restaurant) : bool :=
  String.eqb (PyStr.lower (PyStr.strip (name r1))) (PyStr.lower (PyStr.strip (name r2)))
  && String.eqb (PyStr.lower (PyStr.strip (website r1))) (PyStr.lower (PyStr.strip (website r2)))
  && match rounded W r1, rounded W r2 with
     | Some (la1, lo1), Some (la2, lo2) => PyFloat.eqb la1 la2 && PyFloat.eqb lo1 lo2
     | None, None => true
     | _, _ => false
     end.

(** The three ways one attempt against [endpoint] can end, read off the
    answer [o] to its POST: HTTP 200 with a decoded body; a failure that
    is retried (another status, or a [RequestException] raised by the
    request or by the decoding of a 200 body), with the detail recorded as
    [last_err]; any other exception, which is not caught. *)
Definition yields_200 (o : exn + PostResponse) (data : OverpassData) : Prop :=
  exists r, o = inr r /\ post_status_code r = 200 /\ post_json r = inr data.

Definition fails_with (endpoint : string) (o : exn + PostResponse) (err : string) : Prop :=
  (exists r, o = inr r /\ post_status_code r <> 200
             /\ err = endpoint +:+ " HTTP " +:+ PyStr.str_int (post_status_code r))
  \/ (exists type_name message,
        (o = inl (RequestException type_name message)
         \/ exists r, o = inr r /\ post_status_code r = 200
                      /\ post_json r = inl (RequestException type_name message))
        /\ err = endpoint +:+ " " +:+ type_name +:+ ": " +:+ message).

Definition aborts_with (o : exn + PostResponse) (e : exn) : Prop :=
  exists type_name message,
    e = OtherException type_name message
    /\ (o = inl e \/ exists r, o = inr r /\ post_status_code r = 200 /\ post_json r = inl e).

(** The attempts in the order they are made: every endpoint in priority
    order, attempts 1 to [max_attempts] on each. *)
Definition schedule (max_attempts : Z) : list (string * Z) :=
  flat_map (fun endpoint => map (fun attempt => (endpoint, attempt))
                              (range_from 1 (max_attempts + 1)))
    OVERPASS_ENDPOINTS.

(** The two loops of the retry function as one loop over a schedule. *)
Fixpoint run_schedule (W : World) (query : string) (sched : list (string * Z))
    (last_err : option string) : IO (OverpassData + option string) :=
  match sched with
  | [] => ret (inr last_err)
  | (endpoint, attempt) :: rest =>
      (r <- attempt_once W endpoint query ;;
       match r with
       | inl data => ret (inl data)
       | inr err =>
           (sleep (PyFloat.of_int (2 ^ attempt)) ;;;
            run_schedule W query rest (Some err))
       end)%io
  end.

(** What failed attempts leave in the trace: the request and the pause
    of [2 ^ attempt] seconds after it. *)
Definition backoff (sched : list (string * Z)) : list event :=
  flat_map (fun '(endpoint, attempt) => [Post endpoint; Sleep (PyFloat.of_int (2 ^ attempt))])
    sched.

Definition advance (st : io_state) (n : nat) (events : list event) : io_state :=
  {| requests_made := requests_made st + n; trace := trace st ++ events |}.

(** ** Tiles *)

Definition south {F : Type} (b : bbox F) : F := b.1.1.1.
Definition west {F : Type} (b : bbox F) : F := b.1.1.2.
Definition north {F : Type} (b : bbox F) : F := b.1.2.
Definition east {F : Type} (b : bbox F) : F := b.2.

(** The tile of row [r] and column [c], as the loop body computes it. *)
Definition tile_at {F : Type} `{Arith F} (b : bbox F) (rows cols r c : Z) : bbox F :=
  let lat_step := ((north b - south b) / num_of_int rows)%num in
  let lon_step := ((east b - west b) / num_of_int cols)%num in
  ((south b + num_of_int r * lat_step)%num,
   (west b + num_of_int c * lon_step)%num,
   (south b + num_of_int (r + 1) * lat_step)%num,
   (west b + num_of_int (c + 1) * lon_step)%num).






(** ** A small world to run the script in

    The first mirror answers HTTP 500 to the first four requests; every
    later POST is answered with HTTP 200 and the same two elements, the
    second of them without a name.  Every site serves a page with one
    Play Store link and the words "download our app". *)

Definition nameless : Element :=
  {| el_type := Some "way"; el_id := Some 2;
     el_lat := None; el_lon := None;
     el_center := Some {| c_lat := Some (PyFloat.decimal 336 1); c_lon := None |};
     el_tags := Some {[ "amenity" := "restaurant" ]} |}.

Definition demo_data : OverpassData := {| elements := Some [cafe_x; nameless] |}.

Definition demo_page : Soup :=
  {| select_a_href := inr ["  https://play.google.com/store/apps/details?id=com.cafex "; " "];
     get_text := inr "Download our app today" |}.

Definition demo_world : World :=
  {| check_bracketed_netloc := fun _ => true;
     urljoin := fun _ href => inr href;
     py_round := fun x _ => x;
     py_str := PyFloat.format_2f;
     requests_post := fun k _ _ =>
       if (k <? 4)%nat
       then inr {| post_status_code := 500; post_json := inl (RequestException "JSONDecodeError" "") |}
       else inr {| post_status_code := 200; post_json := inr demo_data |};
     requests_get := fun _ target =>
       inr {| resp_status_code := 200; resp_text := "<html>"; resp_url := target |};
     BeautifulSoup := fun _ => inr demo_page |}.

Definition demo_restaurant : Restaurant :=
  {| name := "Cafe X"; address := ""; phone := ""; website := "https://cafex.com";
     lat := Some (PyFloat.decimal 336 1); lon := Some (PyFloat.decimal 7305 2);
     source := "OSM/Overpass"; osm_type := "node"; osm_id := Some 1 |}.

Definition demo_rows : list AuditRow :=
  [ audit_row demo_restaurant
      (set_verdict "no_store_links_found_on_homepage" (PyFloat.decimal 85 2) initial_result);
    audit_row demo_restaurant
      (set_verdict "app_text_hint_but_no_store_link" (PyFloat.decimal 6 1) initial_result);
    audit_row demo_restaurant
      (set_verdict "store_link_found_on_website" (PyFloat.decimal 95 2)
         (set_android "https://play.google.com/store/apps/details?id=com.cafex" initial_result)) ].

Definition demo_tiles : list (bbox float) :=
  Eval vm_compute in default [] (tile_bbox RAWALPINDI_BBOX TILE_ROWS TILE_COLS).

(** The same world with sites whose homepage has no link and no hint. *)
Definition clean_page : Soup :=
  {| select_a_href := inr ["/menu"; "#top"];
     get_text := inr "Fresh food, open daily" |}.

Definition clean_world : World :=
  {| check_bracketed_netloc := check_bracketed_netloc demo_world;
     urljoin := fun base href => inr (base +:+ href);
     py_round := py_round demo_world;
     py_str := py_str demo_world;
     requests_post := requests_post demo_world;
     requests_get := requests_get demo_world;
     BeautifulSoup := fun _ => inr clean_page |}.

(** ** Records that the key tells apart, or fails to

    A world that rounds and prints the two zeros as Python does:
    [round(x, 4)] of a zero is that zero, and its [str] is [-0.0] or
    [0.0]. *)
Definition zero_world : World :=
  {| check_bracketed_netloc := check_bracketed_netloc demo_world;
     urljoin := urljoin demo_world;
     py_round := fun x _ => x;
     py_str := fun x =>
       match x with
       | S754_zero true => "-0.0"
       | S754_zero false => "0.0"
       | _ => PyFloat.format_2f x
       end;
     requests_post := requests_post demo_world;
     requests_get := requests_get demo_world;
     BeautifulSoup := BeautifulSoup demo_world |}.

(** Two nodes named [a], at latitude -0.0 and at latitude 0.0. *)
Definition at_minus_zero : Element :=
  {| el_type := Some "node"; el_id := Some 10;
     el_lat := Some (S754_zero true); el_lon := Some (S754_zero false);
     el_center := None;
     el_tags := Some {[ "name" := "a" ]} |}.

Definition at_plus_zero : Element :=
  {| el_type := Some "node"; el_id := Some 11;
     el_lat := Some (S754_zero false); el_lon := Some (S754_zero false);
     el_center := None;
     el_tags := Some {[ "name" := "a" ]} |}.

(** Two nodes without coordinates: one has the separator in its name and
    no website, the other has it in its website. *)
Definition bar_in_name : Element :=
  {| el_type := Some "node"; el_id := Some 12;
     el_lat := None; el_lon := None; el_center := None;
     el_tags := Some {[ "name" := "a|https://b.c" ]} |}.

Definition bar_in_website : Element :=
  {| el_type := Some "node"; el_id := Some 13;
     el_lat := None; el_lon := None; el_center := None;
     el_tags := Some {[ "name" := "a"; "website" := "b.c|" ]} |}.

(** ** Vocabulary of the further properties *)

(** An event that the retry function may cause when it is given
    [max_attempts] attempts per mirror: a POST to one of the mirrors, or a
    pause of [2 ^ attempt] seconds. *)
Definition retry_event (max_attempts : Z) (ev : event) : Prop :=
  match ev with
  | Post endpoint => In endpoint OVERPASS_ENDPOINTS
  | Sleep seconds =>
      exists attempt, 1 <= attempt <= max_attempts /\ seconds = PyFloat.of_int (2 ^ attempt)
  | Get _ => False
  end.

(** A verdict whose parts agree: a flag is set exactly when its evidence
    URL is recorded, recorded evidence is a non-empty link that the store
    pattern matches, the notes say [store_link_found_on_website] exactly
    when a flag is set, and the confidence lies between 0 and 1. *)
Definition consistent_verdict (a : AppInfo) : Prop :=
  (has_android_app a = true <-> exists h, evidence_android_url a = Some h)
  /\ (has_ios_app a = true <-> exists h, evidence_ios_url a = Some h)
  /\ (forall h, evidence_android_url a = Some h -> h <> "" /\ Re.search PLAYSTORE_RE h = true)
  /\ (forall h, evidence_ios_url a = Some h -> h <> "" /\ Re.search APPLE_APPS_RE h = true)
  /\ (has_android_app a || has_ios_app a = true <-> notes a = "store_link_found_on_website")
  /\ notes a <> ""
  /\ PyFloat.leb (PyFloat.of_int 0) (confidence a)
     && PyFloat.leb (confidence a) (PyFloat.of_int 1) = true.

(** What the second loop of [main] does for one restaurant: nothing when
    the record has no website; else the GET of the classifier, when the
    website normalises, and the pause that follows the call. *)
Definition site_events (W : World) (r : Restaurant) : list event :=
  if PyStr.truthy (website r)
  then match normalize_url W (website r) with
       | Some target => [Get target]
       | None => []
       end ++ [Sleep DELAY_BETWEEN_SITES_SEC]
  else [].

Definition is_get (ev : event) : bool :=
  match ev with Get _ => true | _ => false end.

(** * Theorems *)

(** ** The embedding at work *)

Example normalize_url_examples (W : World) :
  normalize_url W "cafex.com" = Some "https://cafex.com"
  /\ normalize_url W "  http://a.b/menu " = Some "http://a.b/menu"
  /\ normalize_url W "   " = None
  /\ normalize_url W "http://" = None
  /\ normalize_url W "https:///path" = None
  /\ normalize_url W "HTTP://a.b" = Some "https://HTTP://a.b".
Proof. repeat split. Qed.

Example store_pattern_examples :
  Re.search PLAYSTORE_RE "https://play.google.com/store/apps/details?id=com.cafex" = true
  /\ Re.search PLAYSTORE_RE "HTTP://PLAY.GOOGLE.COM/store/apps/details?id=x&hl=en" = true
  /\ Re.search PLAYSTORE_RE "https://play.google.com/store/apps/details?id=" = false
  /\ Re.search PLAYSTORE_RE "https://play.google.com/store/apps" = false
  /\ Re.search APPLE_APPS_RE "see https://apps.apple.com/pk/app/x/id1" = true
  /\ Re.search APPLE_APPS_RE "https://apps.apple.com" = false.
Proof. repeat split. Qed.

Example text_hint_examples :
  Re.search APP_TEXT_HINT_RE "Please Download   our App!" = true
  /\ Re.search APP_TEXT_HINT_RE "get the app" = true
  /\ Re.search APP_TEXT_HINT_RE "your app" = false
  /\ Re.search APP_TEXT_HINT_RE "our apps" = false
  /\ Re.search APP_TEXT_HINT_RE "" = false.
Proof. repeat split. Qed.

Example confidence_examples :
  map PyFloat.format_2f
    [PyFloat.decimal 1 1; PyFloat.decimal 2 1; PyFloat.decimal 6 1;
     PyFloat.decimal 85 2; PyFloat.decimal 95 2]
  = ["0.10"; "0.20"; "0.60"; "0.85"; "0.95"]
  /\ PyFloat.float_of_string "0.85" = Some (PyFloat.decimal 85 2)
  /\ PyFloat.float_of_string "0.6x" = None.
Proof. vm_compute. repeat split. Qed.

Example extract_address_example :
  extract_address
    {[ "addr:city" := "Rawalpindi"; "addr:street" := "Murree Road"; "addr:suburb" := "" ]}
  = "Murree Road, Rawalpindi".
Proof. vm_compute. reflexivity. Qed.

Example dedupe_key_examples (W : World) (la lo : float) :
  dedupe_key W " Cafe X " "HTTPS://CafeX.com" (Some la) None
  = "cafe x|https://cafex.com|no_coords"
  /\ dedupe_key W "Cafe X" "" (Some la) (Some lo)
     = "cafe x||" +:+ py_str W (py_round W la 4) +:+ "|" +:+ py_str W (py_round W lo 4).
Proof. split; reflexivity. Qed.

Lemma SFcompare_antisym (a b : float) :
  SFcompare b a = option_map CompOpp (SFcompare a b).
Proof.
  destruct a as [sa|sa| |sa ma ea], b as [sb|sb| |sb mb eb]; simpl;
    try (destruct sa; try destruct sb; reflexivity);
    try (destruct sb; reflexivity); try reflexivity.
  destruct sa, sb; simpl; try reflexivity.
  - rewrite (Z.compare_antisym eb ea).
    destruct (eb ?= ea) eqn:E; simpl; try reflexivity.
    rewrite (Pos.compare_cont_antisym _ _ Eq). simpl.
    now rewrite CompOpp_involutive.
  - rewrite (Z.compare_antisym eb ea).
    destruct (eb ?= ea) eqn:E; simpl; try reflexivity.
    now rewrite (Pos.compare_cont_antisym _ _ Eq).
Qed.

Lemma SFleb_not_ltb (a b : float) : SFleb a b = true -> SFltb b a = false.
Proof.
  unfold SFleb, SFltb. rewrite (SFcompare_antisym a b).
  destruct (SFcompare a b) as [[]|]; simpl; congruence.
Qed.

Lemma truthy_spec (s : string) : PyStr.truthy s = true <-> s <> "".
Proof. destruct s; simpl; split; intros; congruence. Qed.

Lemma no_app_notes_spec (n : string) :
  no_app_notes n = true <->
  n = "no_store_links_found_on_homepage" \/ n = "app_text_hint_but_no_store_link".
Proof.
  unfold no_app_notes. rewrite orb_true_iff, !String.eqb_eq. reflexivity.
Qed.

Lemma keep_no_app_true (row : AuditRow) :
  keep_no_app row = Some true <-> no_app_condition row.
Proof.
  unfold keep_no_app, no_app_condition.
  destruct (PyStr.truthy (website (restaurant row))) eqn:Hw; cbn [negb].
  - apply truthy_spec in Hw.
    destruct (row_has_any_app row =? 0) eqn:Ha; cbn [negb].
    + apply Z.eqb_eq in Ha.
      destruct (PyFloat.float_of_string (row_confidence row)) as [c|] eqn:Hc.
      * split.
        -- intros Hk. apply Some_inj, andb_true_iff in Hk as [Hle Hn].
           apply no_app_notes_spec in Hn. eauto 10.
        -- intros (_ & _ & (c' & [= <-] & Hle) & Hn).
           apply no_app_notes_spec in Hn. by rewrite Hle, Hn.
      * split; [discriminate|]. intros (_ & _ & (c' & Hc' & _) & _). discriminate.
    + apply Z.eqb_neq in Ha. split; [discriminate|]. intros (_ & Ha' & _). contradiction.
  - split; [discriminate|]. intros (Hw' & _). apply truthy_spec in Hw'. congruence.
Qed.

Lemma keep_no_app_defined (row : AuditRow) :
  is_Some (PyFloat.float_of_string (row_confidence row)) -> is_Some (keep_no_app row).
Proof.
  intros [c Hc]. unfold keep_no_app. rewrite Hc.
  destruct (negb _); [eauto|]. destruct (negb _); eauto.
Qed.

Lemma no_app_rows_In (rows out : list AuditRow) :
  no_app_rows rows = Some out ->
  forall row, In row out <-> In row rows /\ no_app_condition row.
Proof.
  revert out. induction rows as [|r rows IH]; simpl; intros out Hout row.
  - injection Hout as <-. simpl. tauto.
  - destruct (keep_no_app r) as [keep|] eqn:Hk; [|discriminate].
    destruct (no_app_rows rows) as [kept|]; [|discriminate].
    injection Hout as <-. specialize (IH kept eq_refl row).
    destruct keep; simpl; rewrite IH.
    + apply keep_no_app_true in Hk. split.
      * intros [<-|[? ?]]; auto.
      * intros [[<-|?] ?]; auto.
    + split; [tauto|]. intros [[<-|?] Hc]; [|tauto].
      apply keep_no_app_true in Hc. congruence.
Qed.

Lemma no_app_rows_defined (rows : list AuditRow) :
  (forall row, In row rows -> is_Some (keep_no_app row)) -> is_Some (no_app_rows rows).
Proof.
  induction rows as [|r rows IH]; simpl; intros H; [eauto|].
  destruct (H r (or_introl eq_refl)) as [keep ->].
  destruct IH as [kept ->]; eauto.
Qed.

(** C1. For every list of audit rows whose confidence fields are readable
    as numbers, the no-app filter returns a list, and a row is in it
    exactly when it is a row of the audit whose website is non-empty,
    whose has_any_app flag is 0, whose confidence is at least 0.80 and
    whose notes code is one of the two admitted ones; in particular no row
    of the output has an empty website or a confidence below 0.80. *)
Theorem no_app_rows_spec (rows : list AuditRow)
    (Hconf : forall row, In row rows ->
               is_Some (PyFloat.float_of_string (row_confidence row))) :
  exists out,
    no_app_rows rows = Some out
    /\ (forall row, In row out <-> In row rows /\ no_app_condition row)
    /\ (forall row, In row out ->
          website (restaurant row) <> ""
          /\ forall c, PyFloat.float_of_string (row_confidence row) = Some c ->
                       SFltb c NO_APP_CONF_THRESHOLD = false).
Proof.
  destruct (no_app_rows_defined rows) as [out Hout].
  { intros row Hrow. apply keep_no_app_defined, Hconf, Hrow. }
  exists out. split; [exact Hout|]. split; [apply no_app_rows_In, Hout|].
  intros row Hrow. apply (no_app_rows_In _ _ Hout) in Hrow as [_ Hc].
  destruct Hc as (Hw & _ & (c & Hc & Hle) & _). split; [exact Hw|].
  intros c' Hc'. rewrite Hc in Hc'. injection Hc' as <-.
  apply SFleb_not_ltb, Hle.
Qed.

Ltac io_unfold :=
  unfold scrape_website_for_app_links, scrape_body, try_except, bind, ret, lift, raise, get, sleep in *.

Lemma scrape_verdict_kind (W : World) (website_url : string) (st : io_state) :
  exists a st', scrape_website_for_app_links W website_url st = (inr a, st') /\ verdict_kind a.
Proof.
  io_unfold.
  destruct (normalize_url W website_url) as [target|].
  2:{ eexists _, _. split; [reflexivity|]. apply invalid_website_url; try reflexivity. repeat split. }
  destruct (requests_get W (requests_made st) target) as [[k m|k m]|resp].
  1,2: eexists _, _; split; [reflexivity|].
  { apply (request_error _ k); try reflexivity; repeat split. }
  { apply (parse_error _ k); try reflexivity; repeat split. }
  destruct (400 <=? resp_status_code resp).
  { eexists _, _; split; [reflexivity|]. apply (http_status _ (resp_status_code resp)); try reflexivity; repeat split. }
  destruct (BeautifulSoup W (resp_text resp)) as [[k m|k m]|soup].
  1,2: eexists _, _; split; [reflexivity|].
  { apply (request_error _ k); try reflexivity; repeat split. }
  { apply (parse_error _ k); try reflexivity; repeat split. }
  destruct (select_a_href soup) as [[k m|k m]|anchors].
  1,2: eexists _, _; split; [reflexivity|].
  { apply (request_error _ k); try reflexivity; repeat split. }
  { apply (parse_error _ k); try reflexivity; repeat split. }
  destruct (collect_hrefs W (resp_url resp) anchors []) as [[k m|k m]|hrefs].
  1,2: eexists _, _; split; [reflexivity|].
  { apply (request_error _ k); try reflexivity; repeat split. }
  { apply (parse_error _ k); try reflexivity; repeat split. }
  destruct (truthy_opt (first_match PLAYSTORE_RE hrefs)) eqn:Hp;
    destruct (truthy_opt (first_match APPLE_APPS_RE hrefs)) eqn:Ha; simpl.
  1,2,3: eexists _, _; split; [reflexivity|]; apply store_link_found_on_website; reflexivity.
  destruct (get_text soup) as [[k m|k m]|page_text].
  1,2: eexists _, _; split; [reflexivity|].
  { apply (request_error _ k); try reflexivity; repeat split. }
  { apply (parse_error _ k); try reflexivity; repeat split. }
  destruct (Re.search APP_TEXT_HINT_RE page_text); eexists _, _; (split; [reflexivity|]).
  - apply app_text_hint_but_no_store_link; try reflexivity; repeat split.
  - apply no_store_links_found_on_homepage; try reflexivity; repeat split.
Qed.



Lemma first_match_some (pattern : Re.matcher) (hrefs : list string) (h : string) :
  first_match pattern hrefs = Some h -> first_matching pattern hrefs h.
Proof.
  unfold first_match. induction hrefs as [|x l IH]; simpl; [done|].
  destruct (Re.search pattern x) eqn:Hx.
  - intros [= ->]. exists [], l. repeat split; [done|]. intros ? [].
  - intros Hf. destruct (IH Hf) as (pre & post & -> & Hh & Hpre).
    exists (x :: pre), post. repeat split; [done|].
    intros y [<-|Hy]; [done|]. by apply Hpre.
Qed.

Lemma first_match_exists (pattern : Re.matcher) (hrefs : list string) (x : string) :
  In x hrefs -> Re.search pattern x = true -> exists h, first_match pattern hrefs = Some h.
Proof.
  intros Hin Hx. destruct (first_match pattern hrefs) as [h|] eqn:Hf; [eauto|].
  apply (find_none _ _ Hf) in Hin. congruence.
Qed.


Lemma collect_hrefs_spec (W : World) (base : string) (anchors acc hrefs : list string) :
  collect_hrefs W base anchors acc = inr hrefs ->
  exists hs,
    hrefs = acc ++ hs
    /\ Forall2 (fun a h => urljoin W base a = inr h)
         (List.filter PyStr.truthy (map PyStr.strip anchors)) hs.
Proof.
  revert acc. induction anchors as [|a l IH]; simpl; intros acc H.
  - injection H as <-. exists []. by rewrite app_nil_r.
  - destruct (PyStr.truthy (PyStr.strip a)) eqn:Ht.
    + destruct (urljoin W base (PyStr.strip a)) as [e|h] eqn:Hj; [discriminate|].
      destruct (IH _ H) as (hs & -> & HF). exists (h :: hs).
      split; [by rewrite <- app_assoc|]. by constructor.
    + apply IH, H.
Qed.


Lemma audit_loop_rows (W : World) (restaurants : list Restaurant) :
  forall (audit_rows : list AuditRow) (st : io_state),
  exists new st',
    audit_loop W restaurants audit_rows st = (inr (audit_rows ++ new), st')
    /\ Forall2 (fun r row => exists a, row = audit_row r a /\ verdict_kind a) restaurants new.
Proof.
  induction restaurants as [|r rs IH]; intros audit_rows st; simpl.
  - exists [], st. rewrite app_nil_r. split; [reflexivity|constructor].
  - unfold bind at 1.
    assert (Hv : exists a st1,
               (if PyStr.truthy (website r)
                then bind (scrape_website_for_app_links W (website r))
                       (fun a => bind (sleep DELAY_BETWEEN_SITES_SEC) (fun _ => ret a))
                else ret no_website_verdict) st = (inr a, st1)
               /\ verdict_kind a).
    { destruct (PyStr.truthy (website r)).
      - destruct (scrape_verdict_kind W (website r) st) as (a & st1 & Hs & Hk).
        unfold bind, sleep, ret. rewrite Hs. eauto.
      - eexists _, _. split; [reflexivity|].
        apply no_website_in_osm; try reflexivity. repeat split. }
    destruct Hv as (a & st1 & -> & Hk).
    destruct (IH (audit_rows ++ [audit_row r a]) st1) as (new & st' & -> & HF).
    exists (audit_row r a :: new), st'. rewrite <- app_assoc. split; [reflexivity|].
    constructor; eauto.
Qed.

Lemma audit_loop_restaurants (W : World) (restaurants : list Restaurant) (st : io_state) :
  exists audit_rows st',
    audit_loop W restaurants [] st = (inr audit_rows, st')
    /\ map restaurant audit_rows = restaurants.
Proof.
  destruct (audit_loop_rows W restaurants [] st) as (new & st' & Hl & HF).
  exists new, st'. split; [exact Hl|].
  clear Hl. induction HF as [|r row rs rows (a & -> & _) _ IH]; simpl; congruence.
Qed.




Lemma confidence_readback :
  (PyFloat.float_of_string (PyFloat.format_2f (PyFloat.decimal 1 1)) = Some (PyFloat.decimal 1 1)
   /\ PyFloat.leb NO_APP_CONF_THRESHOLD (PyFloat.decimal 1 1) = false)
  /\ (PyFloat.float_of_string (PyFloat.format_2f (PyFloat.decimal 2 1)) = Some (PyFloat.decimal 2 1)
      /\ PyFloat.leb NO_APP_CONF_THRESHOLD (PyFloat.decimal 2 1) = false)
  /\ (PyFloat.float_of_string (PyFloat.format_2f (PyFloat.decimal 6 1)) = Some (PyFloat.decimal 6 1)
      /\ PyFloat.leb NO_APP_CONF_THRESHOLD (PyFloat.decimal 6 1) = false)
  /\ (PyFloat.float_of_string (PyFloat.format_2f (PyFloat.decimal 85 2)) = Some (PyFloat.decimal 85 2)
      /\ PyFloat.leb NO_APP_CONF_THRESHOLD (PyFloat.decimal 85 2) = true)
  /\ PyFloat.format_2f (PyFloat.decimal 85 2) = "0.85"
  /\ PyFloat.format_2f (PyFloat.decimal 6 1) = "0.60".
Proof. repeat split; vm_compute; reflexivity. Qed.

Lemma audit_row_keep (r : Restaurant) (a : AppInfo) :
  verdict_kind a ->
  exists keep,
    keep_no_app (audit_row r a) = Some keep
    /\ (keep = true ->
          row_notes (audit_row r a) = "no_store_links_found_on_homepage"
          /\ row_confidence (audit_row r a) = "0.85").
Proof.
  pose proof confidence_readback as (H01 & H02 & H06 & H85 & S85 & S60).
  intros Hk. unfold keep_no_app, audit_row.
  cbn [restaurant row_has_any_app row_confidence row_notes].
  destruct (PyStr.truthy (website r)); cbn [negb];
    [|exists false; split; [done|discriminate]].
  destruct Hk as [Hn Hc Hev|k Hn Hc Hev|s Hn Hc Hev|k Hn Hc Hev|Hn Hc Hev|Hn Hc Hev|Hn Hc Hev|Hn Hc Hev];
    try (destruct Hev as (-> & -> & _)); rewrite ?Hc, ?Hn; cbn [orb Z.b2z Z.eqb negb].
  - rewrite (proj1 H01), (proj2 H01). exists false. split; [reflexivity|discriminate].
  - rewrite (proj1 H02), (proj2 H02). exists false. split; [reflexivity|discriminate].
  - rewrite (proj1 H02), (proj2 H02). exists false. split; [reflexivity|discriminate].
  - rewrite (proj1 H02), (proj2 H02). exists false. split; [reflexivity|discriminate].
  - rewrite (proj1 H02), (proj2 H02). exists false. split; [reflexivity|discriminate].
  - rewrite Hev. exists false. split; [reflexivity|discriminate].
  - rewrite (proj1 H06), (proj2 H06). exists false. split; [reflexivity|discriminate].
  - rewrite (proj1 H85), (proj2 H85). exists true. split; [reflexivity|]. intros _. split; [reflexivity|exact S85].
Qed.

Lemma audit_rows_no_app (restaurants : list Restaurant) (rows : list AuditRow) :
  Forall2 (fun r row => exists a, row = audit_row r a /\ verdict_kind a) restaurants rows ->
  exists out,
    no_app_rows rows = Some out
    /\ forall row, In row out ->
         row_notes row = "no_store_links_found_on_homepage" /\ row_confidence row = "0.85".
Proof.
  induction 1 as [|r row rs rows (a & -> & Hk) _ (out & Hout & IH)]; simpl.
  - exists []. split; [done|]. intros ? [].
  - destruct (audit_row_keep r a Hk) as (keep & -> & Hkeep). rewrite Hout.
    destruct keep; eexists; (split; [reflexivity|]); [|exact IH].
    intros row [<-|Hin]; [by apply Hkeep | by apply IH].
Qed.

(** C10. Whatever the sites answer, the no-app filter succeeds on the
    rows the audit loop builds, and every row it keeps has notes
    no_store_links_found_on_homepage and confidence "0.85"; the same holds
    of the second list [main] returns.  A classifier verdict
    app_text_hint_but_no_store_link always carries confidence 0.6, which
    is rendered "0.60" and fails the 0.80 threshold, so no kept row has
    that notes code. *)
Theorem no_app_rows_are_clean_homepages (W : World) :
  (forall (restaurants : list Restaurant) (st : io_state),
     exists audit_rows st' out,
       audit_loop W restaurants [] st = (inr audit_rows, st')
       /\ no_app_rows audit_rows = Some out
       /\ forall row, In row out ->
            row_notes row = "no_store_links_found_on_homepage"
            /\ row_confidence row = "0.85"
            /\ row_notes row <> "app_text_hint_but_no_store_link")
  /\ (forall (st st' : io_state) (audit_rows out : list AuditRow),
        main W st = (inr (audit_rows, out), st') ->
        forall row, In row out ->
          row_notes row = "no_store_links_found_on_homepage"
          /\ row_confidence row = "0.85")
  /\ (forall (website_url : string) (st st' : io_state) (a : AppInfo),
        scrape_website_for_app_links W website_url st = (inr a, st') ->
        notes a = "app_text_hint_but_no_store_link" ->
        confidence a = PyFloat.decimal 6 1
        /\ PyFloat.format_2f (confidence a) = "0.60"
        /\ PyFloat.leb NO_APP_CONF_THRESHOLD (confidence a) = false).
Proof.
  split; [|split].
  - intros restaurants st.
    destruct (audit_loop_rows W restaurants [] st) as (rows & st' & Hl & HF).
    destruct (audit_rows_no_app _ _ HF) as (out & Hout & Hrows).
    exists rows, st', out. repeat split; try done; try (by apply Hrows).
    destruct (Hrows row H) as [-> _]. discriminate.
  - intros st st' audit_rows out Hmain row Hrow.
    unfold main, bind in Hmain.
    destruct (overpass_fetch_restaurants_tiled W RAWALPINDI_BBOX st) as [[e|els] st1];
      [discriminate|].
    destruct (audit_loop_rows W (restaurants_loop W els ∅ []) [] st1)
      as (rows & st2 & Hl & HF).
    rewrite Hl in Hmain. simpl in Hmain.
    destruct (audit_rows_no_app _ _ HF) as (out' & Hout & Hrows).
    rewrite Hout in Hmain. injection Hmain as <- <- <-. by apply Hrows.
  - intros website_url st st' a Hs Hn.
    destruct (scrape_verdict_kind W website_url st) as (a' & st'' & Hs' & Hk).
    rewrite Hs in Hs'. injection Hs' as <- <-.
    pose proof confidence_readback as (_ & _ & H06 & _ & _ & S60).
    destruct Hk as [Hn' Hc _|k Hn' Hc _|s Hn' Hc _|k Hn' Hc _|Hn' Hc _|Hn' Hc _|Hn' Hc _|Hn' Hc _];
      rewrite Hn in Hn'; try discriminate Hn'.
    rewrite Hc. split; [reflexivity|]. split; [exact S60|exact (proj2 H06)].
Qed.

Lemma startswith_app (p s : string) :
  PyStr.startswith p s = true -> exists r, s = p +:+ r.
Proof.
  unfold PyStr.startswith. revert s. induction p as [|a p IH]; intros s; simpl.
  - intros _. by exists s.
  - destruct s as [|b s]; simpl; [discriminate|].
    destruct (ascii_dec a b) as [Heq|Hne]; [subst b|discriminate].
    intros H. destruct (IH _ H) as [r ->]. by exists r.
Qed.

(** After the prefixing step the parsed scheme is always http or https:
    the scheme test of [normalize_url] can never reject. *)
Lemma prefixed_scheme (W : World) (r : string) (parsed : ParseResult) :
  (urlparse W ("http://" +:+ r) = Some parsed -> scheme parsed = "http")
  /\ (urlparse W ("https://" +:+ r) = Some parsed -> scheme parsed = "https").
Proof.
  split; unfold urlparse; simpl;
    destruct (xorb _ _); try discriminate;
    destruct (_ && negb _); try discriminate; by intros [= <-].
Qed.

Lemma normalize_url_spec (W : World) (url u : string) :
  normalize_url W url = Some u <->
  let stripped := PyStr.strip url in
  stripped <> ""
  /\ u = (if PyStr.startswith "http://" stripped || PyStr.startswith "https://" stripped
          then stripped else "https://" +:+ stripped)
  /\ exists parsed, urlparse W u = Some parsed /\ netloc parsed <> "".
Proof.
  unfold normalize_url. cbv zeta.
  destruct url as [|c url'] eqn:Hurl; cbn [PyStr.truthy negb].
  { split; [discriminate|]. intros (H & _). by destruct H. }
  rewrite <- Hurl. clear Hurl.
  set (stripped := PyStr.strip url).
  destruct (PyStr.truthy stripped) eqn:Hs; cbn [negb].
  2:{ split; [discriminate|]. intros (H & _). destruct stripped; [done|discriminate]. }
  apply truthy_spec in Hs.
  set (pre := PyStr.startswith "http://" stripped || PyStr.startswith "https://" stripped).
  set (u' := if negb pre then "https://" +:+ stripped else stripped).
  assert (Hu' : u' = if pre then stripped else "https://" +:+ stripped)
    by (unfold u'; by destruct pre).
  assert (Hsch : forall parsed, urlparse W u' = Some parsed ->
            String.eqb (scheme parsed) "http" || String.eqb (scheme parsed) "https" = true).
  { intros parsed Hp. rewrite Hu' in Hp. unfold pre in Hp.
    destruct (PyStr.startswith "http://" stripped) eqn:H1; cbn [orb] in Hp.
    - apply startswith_app in H1 as [r Hr]. rewrite Hr in Hp.
      by rewrite (proj1 (prefixed_scheme W r parsed) Hp).
    - destruct (PyStr.startswith "https://" stripped) eqn:H2.
      + apply startswith_app in H2 as [r Hr]. rewrite Hr in Hp.
        by rewrite (proj2 (prefixed_scheme W r parsed) Hp).
      + by rewrite (proj2 (prefixed_scheme W stripped parsed) Hp). }
  rewrite <- Hu'.
  destruct (urlparse W u') as [parsed|] eqn:Hp.
  - rewrite (Hsch parsed eq_refl). cbn [negb].
    destruct (PyStr.truthy (netloc parsed)) eqn:Hn; cbn [negb].
    + apply truthy_spec in Hn. split.
      * intros [= <-]. rewrite Hp. eauto.
      * intros (_ & -> & _). done.
    + split; [discriminate|]. intros (_ & -> & parsed' & Hp' & Hn').
      rewrite Hp in Hp'. injection Hp' as <-. destruct (netloc parsed); [done|discriminate].
  - split; [discriminate|]. intros (_ & -> & parsed' & Hp' & _). congruence.
Qed.

(** C5. The input "ftp://example.com", whose scheme [urlparse] reads as
    ftp, is not rejected: it does not start with "http://" or "https://",
    so it is prefixed, and the prefixed string parses with scheme https
    and host "ftp:"; the normaliser returns "https://ftp://example.com". *)
Theorem normalize_url_keeps_foreign_scheme (W : World) :
  urlparse W "ftp://example.com" = Some {| scheme := "ftp"; netloc := "example.com" |}
  /\ urlparse W "https://ftp://example.com" = Some {| scheme := "https"; netloc := "ftp:" |}
  /\ normalize_url W "ftp://example.com" = Some "https://ftp://example.com".
Proof. repeat split. Qed.

Lemma or_else_first_present (tags : gmap string string) (k1 k2 : string) (last : option string) :
  or_else (or_else (tags !! k1) (tags !! k2)) last
  = match first_present tags [k1; k2] with Some v => Some v | None => last end.
Proof.
  unfold first_present, or_else, tag. simpl.
  destruct (tags !! k1) as [[|c1 v1]|]; destruct (tags !! k2) as [[|c2 v2]|]; reflexivity.
Qed.

(** C8. An element without a (non-empty) name tag yields no record; any
    other element yields exactly one, whose address joins the present
    fragments house number, street, suburb, city with ", " in that order,
    whose phone is the first present of phone and contact:phone, else
    empty, whose website is the first present of website, contact:website
    and url passed through [normalize_url], else empty, and whose
    coordinates are the element's own when both are given, else those of
    its center, else absent.  A tag is present when it has a non-empty
    value.  The node named "Cafe X" with website "cafex.com" gets the
    website "https://cafex.com". *)
Theorem normalize_element_spec (W : World) (el : Element) :
  let tags := default ∅ (el_tags el) in
  (tag tags "name" = None ->
     normalize_element W el = None /\ restaurants_loop W [el] ∅ [] = [])
  /\ (forall nm, tag tags "name" = Some nm ->
        exists key r,
          normalize_element W el = Some (key, r)
          /\ restaurants_loop W [el] ∅ [] = [r]
          /\ name r = nm
          /\ address r
             = PyStr.join ", "
                 (omap (tag tags) ["addr:housenumber"; "addr:street"; "addr:suburb"; "addr:city"])
          /\ phone r = default "" (first_present tags ["phone"; "contact:phone"])
          /\ website r
             = match first_present tags ["website"; "contact:website"; "url"] with
               | Some w => default "" (normalize_url W w)
               | None => ""
               end
          /\ (lat r, lon r)
             = match el_lat el, el_lon el with
               | Some la, Some lo => (Some la, Some lo)
               | _, _ =>
                   match el_center el with
                   | Some c => (c_lat c, c_lon c)
                   | None => (None, None)
                   end
               end
          /\ source r = "OSM/Overpass"
          /\ osm_type r = default "" (el_type el)
          /\ osm_id r = el_id el)
  /\ (exists key r,
        normalize_element W cafe_x = Some (key, r)
        /\ name r = "Cafe X" /\ website r = "https://cafex.com").
Proof.
  cbv zeta. split; [|split].
  - intros Hn. unfold restaurants_loop, normalize_element. by rewrite Hn.
  - intros nm Hn. unfold restaurants_loop, normalize_element. rewrite Hn.
    set (tags := default ∅ (el_tags el)).
    destruct (match el_lat el with
              | Some la => match el_lon el with
                           | Some lo => (Some la, Some lo)
                           | None => _
                           end
              | None => _
              end) as [la lo] eqn:Hc.
    eexists _, _. split; [reflexivity|]. split.
    { destruct (decide (_ ∈ ∅)) as [Hin|_]; [set_solver|reflexivity]. }
    cbn [name address phone website lat lon source osm_type osm_id].
    repeat split.
    + rewrite or_else_first_present.
      by destruct (first_present tags ["phone"; "contact:phone"]).
    + unfold first_present, or_else, tag, truthy_opt. simpl.
      destruct (tags !! "website") as [[|c1 v1]|];
        destruct (tags !! "contact:website") as [[|c2 v2]|];
        destruct (tags !! "url") as [[|c3 v3]|]; reflexivity.
    + rewrite <- Hc. destruct (el_lat el), (el_lon el), (el_center el); reflexivity.
  - eexists _, _. split; [vm_compute; reflexivity|]. split; reflexivity.
Qed.

Section FirstSeen.
Context {K A : Type} {K_eq : EqDecision K} {K_count : Countable K}.
Implicit Types (seen : gset K) (cands : list (K * A)).

Lemma first_seen_app seen cands1 cands2 :
  first_seen seen (cands1 ++ cands2)
  = first_seen seen cands1
    ++ first_seen (seen ∪ list_to_set (map fst cands1)) cands2.
Proof.
  revert seen. induction cands1 as [|[k a] l IH]; intros seen; simpl.
  - f_equal. set_solver.
  - destruct (decide (k ∈ seen)) as [Hin|Hin].
    + rewrite IH. do 2 f_equal. set_solver.
    + simpl. rewrite IH. do 3 f_equal. set_solver.
Qed.

Lemma first_seen_fresh seen cands k :
  In k (map fst (first_seen seen cands)) -> k ∉ seen.
Proof.
  revert seen. induction cands as [|[k' a] l IH]; intros seen; simpl; [done|].
  destruct (decide (k' ∈ seen)) as [Hin|Hin]; [apply IH|].
  simpl. intros [<-|Hk]; [done|]. apply IH in Hk. set_solver.
Qed.

Lemma first_seen_NoDup seen cands : List.NoDup (map fst (first_seen seen cands)).
Proof.
  revert seen. induction cands as [|[k a] l IH]; intros seen; simpl; [constructor|].
  destruct (decide (k ∈ seen)) as [Hin|Hin]; [apply IH|].
  simpl. constructor; [|apply IH].
  intros Hk. apply first_seen_fresh in Hk. set_solver.
Qed.

Lemma first_seen_sublist seen cands : sublist (first_seen seen cands) cands.
Proof.
  revert seen. induction cands as [|[k a] l IH]; intros seen; simpl; [constructor|].
  destruct (decide (k ∈ seen)); [apply sublist_cons|apply sublist_skip]; apply IH.
Qed.

Lemma first_seen_complete seen cands k a :
  In (k, a) cands -> k ∈ seen \/ In k (map fst (first_seen seen cands)).
Proof.
  revert seen. induction cands as [|[k' a'] l IH]; intros seen; simpl; [done|].
  intros [[= -> ->]|Hin].
  - destruct (decide (k ∈ seen)); [by left|right; by left].
  - destruct (decide (k' ∈ seen)) as [Hs|Hs]; [by apply IH|].
    destruct (IH ({[k']} ∪ seen) Hin) as [Hk|Hk]; [|right; by right].
    apply elem_of_union in Hk as [->%elem_of_singleton|Hk]; [right; by left|by left].
Qed.

Lemma first_seen_first seen cands k a :
  In (k, a) (first_seen seen cands) ->
  exists pre post,
    cands = pre ++ (k, a) :: post /\ ~ In k (map fst pre) /\ k ∉ seen.
Proof.
  revert seen. induction cands as [|[k' a'] l IH]; intros seen; simpl; [done|].
  destruct (decide (k' ∈ seen)) as [Hs|Hs].
  - intros Hin. destruct (IH _ Hin) as (pre & post & -> & Hpre & Hk).
    exists ((k', a') :: pre), post. repeat split; [|done].
    simpl. intros [->|?]; done.
  - intros [[= -> ->]|Hin].
    + exists [], l. repeat split; [|done]. intros [].
    + destruct (IH _ Hin) as (pre & post & -> & Hpre & Hk).
      exists ((k', a') :: pre), post. repeat split; [|set_solver].
      simpl. intros [->|?]; [set_solver|done].
Qed.
End FirstSeen.

Lemma dedupe_elements_first_seen (els : list Element)
    (seen_ids : gset (option string * option Z)) (all_elements : list Element) :
  dedupe_elements els seen_ids all_elements
  = (seen_ids ∪ list_to_set (map element_key els),
     all_elements ++ map snd (first_seen seen_ids (keyed els))).
Proof.
  revert seen_ids all_elements. induction els as [|el l IH]; intros seen all; simpl.
  - rewrite app_nil_r. f_equal. set_solver.
  - destruct (decide (element_key el ∈ seen)) as [Hin|Hin]; rewrite IH.
    + f_equal. set_solver.
    + simpl. rewrite <- app_assoc. f_equal. set_solver.
Qed.

Lemma tiles_loop_tile_lists (W : World) (tiles : list (bbox float)) :
  forall (seen_ids : gset (option string * option Z)) (all_elements : list Element)
         (st : io_state),
  tiles_loop W tiles seen_ids all_elements st
  = match tile_lists W tiles st with
    | (inl e, st') => (inl e, st')
    | (inr lists, st') =>
        (inr (all_elements ++ map snd (first_seen seen_ids (keyed (concat lists)))), st')
    end.
Proof.
  induction tiles as [|tb rest IH]; intros seen all st; simpl.
  - unfold ret. simpl. by rewrite app_nil_r.
  - unfold bind at 1 3.
    destruct (overpass_post_with_retries W (overpass_query_for_bbox W tb) 4 st)
      as [[e|data] st1]; [reflexivity|].
    rewrite dedupe_elements_first_seen.
    unfold bind, sleep, ret. rewrite IH.
    destruct (tile_lists W rest (log (Sleep (PyFloat.of_int 1)) st1)) as [[e|lists] st2];
      [reflexivity|].
    simpl. unfold keyed. rewrite map_app, first_seen_app, map_app, app_assoc.
    do 5 f_equal. unfold keyed. rewrite map_map. reflexivity.
Qed.



Lemma NoDup_map_snd_fst {K A : Type} (g : A -> K) (l : list (K * A)) :
  (forall k a, In (k, a) l -> k = g a) ->
  List.NoDup (map fst l) -> List.NoDup (map g (map snd l)).
Proof.
  intros Hg Hnd. rewrite map_map.
  replace (map (fun x => g (snd x)) l) with (map fst l); [done|].
  apply map_ext_in. intros [k a] Hin. simpl. by apply Hg.
Qed.


Lemma restaurants_loop_first_seen (W : World) (els : list Element) :
  forall (seen : gset string) (restaurants : list Restaurant),
  restaurants_loop W els seen restaurants
  = restaurants ++ map snd (first_seen seen (omap (normalize_element W) els)).
Proof.
  induction els as [|el l IH]; intros seen acc; simpl.
  - by rewrite app_nil_r.
  - destruct (normalize_element W el) as [[key r]|]; simpl; [|apply IH].
    destruct (decide (key ∈ seen)); rewrite IH; [done|].
    simpl. by rewrite <- app_assoc.
Qed.

Lemma normalize_element_key (W : World) (el : Element) (key : string) (r : Restaurant) :
  normalize_element W el = Some (key, r) -> key = row_key W r.
Proof.
  unfold normalize_element, row_key.
  destruct (tag (default ∅ (el_tags el)) "name") as [nm|]; [|discriminate].
  destruct (match el_lat el with
            | Some la => match el_lon el with
                         | Some lo => (Some la, Some lo)
                         | None => _
                         end
            | None => _
            end) as [la lo].
  by intros [= <- <-].
Qed.

Lemma NoDup_map_inj {A B : Type} (f : A -> B) (l : list A) (x y : A) :
  List.NoDup (map f l) -> In x l -> In y l -> f x = f y -> x = y.
Proof.
  induction l as [|z l IH]; simpl; [by intros _ []|].
  intros Hnd Hx Hy Hf. apply NoDup_cons_iff in Hnd as [Hz Hnd].
  destruct Hx as [->|Hx], Hy as [->|Hy]; [reflexivity| | |by apply IH].
  - exfalso. apply Hz. rewrite Hf. by apply in_map.
  - exfalso. apply Hz. rewrite <- Hf. by apply in_map.
Qed.

(** C3, as amended. Among the records built from any element list no two
    share the de-duplication key, and the key is a string: the lower-cased
    stripped name, the lower-cased stripped website and the printed forms
    of the coordinates rounded to 4 places, joined by [|], with
    [no_coords] in place of the coordinates when either is absent.  The
    key of every named element is the key of a record of the output, of
    one only; the record kept for a key is the first one seen with it, in
    the order seen; and the audit rows carry exactly these records. *)
Theorem restaurants_share_no_key (W : World) (els : list Element) :
  let cands := omap (normalize_element W) els in
  let out := restaurants_loop W els ∅ [] in
  (forall r,
     row_key W r
     = PyStr.lower (PyStr.strip (name r)) +:+ "|"
       +:+ PyStr.lower (PyStr.strip (website r)) +:+ "|"
       +:+ match lat r, lon r with
           | Some la, Some lo =>
               py_str W (py_round W la 4) +:+ "|" +:+ py_str W (py_round W lo 4)
           | _, _ => "no_coords"
           end)
  /\ List.NoDup (map (row_key W) out)
  /\ (forall key r, In (key, r) cands -> key = row_key W r)
  /\ (forall key r, In (key, r) cands ->
        exists r', In r' out /\ row_key W r' = key
                   /\ forall r'', In r'' out -> row_key W r'' = key -> r'' = r')
  /\ (forall r, In r out ->
        exists pre post,
          cands = pre ++ (row_key W r, r) :: post /\ ~ In (row_key W r) (map fst pre))
  /\ sublist out (map snd cands)
  /\ (forall st, exists audit_rows st',
        audit_loop W out [] st = (inr audit_rows, st')
        /\ map restaurant audit_rows = out
        /\ List.NoDup (map (fun row => row_key W (restaurant row)) audit_rows)).
Proof.
  cbv zeta. rewrite restaurants_loop_first_seen. simpl.
  set (cands := omap (normalize_element W) els).
  set (kept := first_seen ∅ cands).
  assert (Hcands : forall key r, In (key, r) cands -> key = row_key W r).
  { intros key r Hin. unfold cands in Hin.
    apply list_elem_of_In, list_elem_of_omap in Hin as (el & _ & Hel).
    by apply normalize_element_key in Hel. }
  assert (Hkept : forall key r, In (key, r) kept -> key = row_key W r).
  { intros key r Hin. apply Hcands.
    apply first_seen_first in Hin as (pre & post & -> & _). apply in_elt. }
  assert (Hnd : List.NoDup (map (row_key W) (map snd kept))).
  { apply NoDup_map_snd_fst; [exact Hkept|apply first_seen_NoDup]. }
  split.
  { intros r. unfold row_key, dedupe_key.
    destruct (lat r), (lon r); reflexivity. }
  split; [exact Hnd|].
  split; [exact Hcands|]. split; [|split; [|split]].
  - intros key r Hin.
    destruct (first_seen_complete ∅ cands key r Hin) as [Hk|Hk]; [set_solver|].
    fold kept in Hk. apply in_map_iff in Hk as ([k r'] & Hfst & Hin'). simpl in Hfst. subst k.
    exists r'. split; [|split; [symmetry; by apply Hkept|]].
    + apply in_map_iff. exists (key, r'). split; [reflexivity|exact Hin'].
    + intros r'' Hin'' Hkey.
      assert (Hr' : In r' (map snd kept)).
      { apply in_map_iff. exists (key, r'). split; [reflexivity|exact Hin']. }
      rewrite (Hkept _ _ Hin') in Hkey.
      eapply NoDup_map_inj; [exact Hnd|exact Hin''|exact Hr'|exact Hkey].
  - intros r Hin. apply in_map_iff in Hin as ([k r'] & Hsnd & Hin). simpl in Hsnd. subst r'.
    pose proof (Hkept _ _ Hin) as ->.
    apply first_seen_first in Hin as (pre & post & Heq & Hpre & _). eauto.
  - apply (fmap_sublist snd), first_seen_sublist.
  - intros st. destruct (audit_loop_restaurants W (map snd kept) st) as (rows & st' & Hl & Hm).
    exists rows, st'. split; [exact Hl|]. split; [exact Hm|].
    rewrite <- Hm in Hnd. by rewrite map_map in Hnd.
Qed.

(** C3 as first worded, with the key read as the triple of name, website
    and rounded coordinates, fails in both directions.  Two nodes named
    [a] at latitudes -0.0 and 0.0 round to equal coordinates, yet their
    keys [a||-0.0|0.0] and [a||0.0|0.0] differ and both records are kept.
    And a node named [a|https://b.c] without website and a node named [a]
    with website [b.c|] differ in name and website, yet have one key, so
    the second is dropped though nothing like it was seen before. *)
Lemma rounded_identity_is_not_the_key :
  (exists r1 r2,
     restaurants_loop zero_world [at_minus_zero; at_plus_zero] ∅ [] = [r1; r2]
     /\ same_identity zero_world r1 r2 = true
     /\ row_key zero_world r1 = "a||-0.0|0.0"
     /\ row_key zero_world r2 = "a||0.0|0.0")
  /\ (exists key r1 r2,
        normalize_element zero_world bar_in_name = Some (key, r1)
        /\ normalize_element zero_world bar_in_website = Some (key, r2)
        /\ key = "a|https://b.c||no_coords"
        /\ same_identity zero_world r1 r2 = false
        /\ restaurants_loop zero_world [bar_in_name; bar_in_website] ∅ [] = [r1]).
Proof.
  split.
  - eexists _, _. split; [vm_compute; reflexivity|]. by vm_compute.
  - eexists _, _, _. split; [vm_compute; reflexivity|].
    split; [vm_compute; reflexivity|]. by vm_compute.
Qed.

Lemma attempt_outcomes (endpoint : string) (o : exn + PostResponse) :
  (exists data, yields_200 o data)
  \/ (exists err, fails_with endpoint o err)
  \/ (exists e, aborts_with o e).
Proof.
  destruct o as [[n m|n m]|r].
  - right. left. eexists. right. exists n, m. split; [by left|reflexivity].
  - right. right. eexists. exists n, m. split; [reflexivity|by left].
  - destruct (decide (post_status_code r = 200)) as [H2|H2].
    + destruct (post_json r) as [[n m|n m]|data] eqn:Hj.
      * right. left. eexists. right. exists n, m. split; [right; eauto|reflexivity].
      * right. right. eexists. exists n, m. split; [reflexivity|right; eauto].
      * left. exists data, r. done.
    + right. left. eexists. left. exists r. done.
Qed.

Lemma attempt_once_yields (W : World) (endpoint query : string) (st : io_state)
    (data : OverpassData) :
  yields_200 (requests_post W (requests_made st) endpoint query) data ->
  attempt_once W endpoint query st = (inr (inl data), tick (Post endpoint) st).
Proof.
  intros (r & Ho & H2 & Hj).
  unfold attempt_once, try_except, attempt_body, bind, post, lift, ret.
  rewrite Ho. apply Z.eqb_eq in H2. by rewrite H2, Hj.
Qed.

Lemma attempt_once_fails (W : World) (endpoint query : string) (st : io_state)
    (err : string) :
  fails_with endpoint (requests_post W (requests_made st) endpoint query) err ->
  attempt_once W endpoint query st = (inr (inr err), tick (Post endpoint) st).
Proof.
  unfold attempt_once, try_except, attempt_body, bind, post, lift, ret.
  intros [(r & Ho & H2 & ->)|(n & m & [Ho|(r & Ho & H2 & Hj)] & ->)]; rewrite Ho.
  - apply Z.eqb_neq in H2. by rewrite H2.
  - reflexivity.
  - apply Z.eqb_eq in H2. by rewrite H2, Hj.
Qed.

Lemma attempt_once_aborts (W : World) (endpoint query : string) (st : io_state) (e : exn) :
  aborts_with (requests_post W (requests_made st) endpoint query) e ->
  attempt_once W endpoint query st = (inl e, tick (Post endpoint) st).
Proof.
  unfold attempt_once, try_except, attempt_body, bind, post, lift, ret, raise.
  intros (n & m & -> & [Ho|(r & Ho & H2 & Hj)]); rewrite Ho.
  - reflexivity.
  - apply Z.eqb_eq in H2. by rewrite H2, Hj.
Qed.

Lemma attempts_loop_run (W : World) (endpoint query : string) (attempts : list Z) :
  forall last_err st,
  attempts_loop W endpoint query attempts last_err st
  = run_schedule W query (map (fun attempt => (endpoint, attempt)) attempts) last_err st.
Proof.
  induction attempts as [|a l IH]; intros last_err st; simpl; [reflexivity|].
  unfold bind.
  destruct (attempt_once W endpoint query st) as [[e|[data|err]] st1]; try reflexivity.
  unfold sleep. by rewrite IH.
Qed.

Lemma run_schedule_app (W : World) (query : string) (sched1 sched2 : list (string * Z)) :
  forall last_err st,
  run_schedule W query (sched1 ++ sched2) last_err st
  = match run_schedule W query sched1 last_err st with
    | (inr (inr last_err'), st') => run_schedule W query sched2 last_err' st'
    | r => r
    end.
Proof.
  induction sched1 as [|[ep a] l IH]; intros last_err st; simpl; [reflexivity|].
  unfold bind.
  destruct (attempt_once W ep query st) as [[e|[data|err]] st1]; try reflexivity.
  unfold sleep. by rewrite IH.
Qed.

Lemma endpoints_loop_run (W : World) (query : string) (max_attempts : Z)
    (endpoints : list string) :
  forall last_err st,
  endpoints_loop W query max_attempts endpoints last_err st
  = run_schedule W query
      (flat_map (fun endpoint => map (fun attempt => (endpoint, attempt))
                                   (range_from 1 (max_attempts + 1))) endpoints)
      last_err st.
Proof.
  induction endpoints as [|ep l IH]; intros last_err st; simpl; [reflexivity|].
  rewrite run_schedule_app. unfold bind. rewrite attempts_loop_run.
  destruct (run_schedule W query _ last_err st) as [[e|[data|le]] st1]; try reflexivity.
  apply IH.
Qed.

Lemma advance_tick (st : io_state) (ep : string) (a : Z) (n : nat) (events : list event) :
  advance (log (Sleep (PyFloat.of_int (2 ^ a))) (tick (Post ep) st)) n events
  = advance st (S n) (backoff [(ep, a)] ++ events).
Proof.
  unfold advance, log, tick. simpl. f_equal; [lia|]. by rewrite <- !app_assoc.
Qed.

(** The flat loop, by induction on the schedule: the failures before the
    first attempt that does not fail each cost a request and a pause; that
    attempt decides the result. *)
Lemma run_schedule_spec (W : World) (query : string) (sched : list (string * Z)) :
  forall (last_err : option string) (st : io_state),
  let outcome (i : nat) (ep : string) :=
    requests_post W (requests_made st + i) ep query in
  let failed_before (i : nat) :=
    forall j ep (a : Z), (j < i)%nat -> sched !! j = Some (ep, a) ->
      exists err, fails_with ep (outcome j ep) err in
  (forall i ep a data,
     sched !! i = Some (ep, a) -> failed_before i -> yields_200 (outcome i ep) data ->
     run_schedule W query sched last_err st
     = (inr (inl data), advance st (S i) (backoff (take i sched) ++ [Post ep])))
  /\ (forall i ep a e,
        sched !! i = Some (ep, a) -> failed_before i -> aborts_with (outcome i ep) e ->
        run_schedule W query sched last_err st
        = (inl e, advance st (S i) (backoff (take i sched) ++ [Post ep])))
  /\ (failed_before (length sched) ->
        exists last_err',
          run_schedule W query sched last_err st
          = (inr (inr last_err'), advance st (length sched) (backoff sched))
          /\ (sched = [] -> last_err' = last_err)
          /\ (forall ep a, last sched = Some (ep, a) ->
                exists err,
                  fails_with ep (outcome (length sched - 1)%nat ep) err
                  /\ last_err' = Some err)).
Proof.
  induction sched as [|[ep0 a0] rest IH]; intros last_err st outcome failed_before.
  - split; [|split].
    + intros i ep a data Hi. by rewrite lookup_nil in Hi.
    + intros i ep a e Hi. by rewrite lookup_nil in Hi.
    + intros _. exists last_err. split; [|split; [done|intros ep a Hl; discriminate Hl]].
      simpl. unfold ret, advance. simpl. rewrite app_nil_r, Nat.add_0_r. by destruct st.
  - assert (Hshift : forall i ep, outcome (S i) ep
              = requests_post W
                  (requests_made (log (Sleep (PyFloat.of_int (2 ^ a0))) (tick (Post ep0) st)) + i)
                  ep query).
    { intros i ep. unfold outcome. simpl. f_equal. lia. }
    assert (Hstep : forall i, failed_before (S i) ->
              exists err0,
                attempt_once W ep0 query st = (inr (inr err0), tick (Post ep0) st)
                /\ fails_with ep0 (outcome 0%nat ep0) err0
                /\ forall j ep a, (j < i)%nat -> rest !! j = Some (ep, a) ->
                     exists err, fails_with ep (outcome (S j) ep) err).
    { intros i Hf. destruct (Hf 0%nat ep0 a0) as [err0 H0]; [lia|done|].
      exists err0. split; [|split; [exact H0|]].
      - apply attempt_once_fails. unfold outcome in H0. by rewrite Nat.add_0_r in H0.
      - intros j ep a Hj Hl. apply (Hf (S j) ep a); [lia|done]. }
    specialize (IH (Some "") (log (Sleep (PyFloat.of_int (2 ^ a0))) (tick (Post ep0) st))) as IH0.
    split; [|split].
    + intros [|i] ep a data Hi Hf Hy.
      * injection Hi as <- <-. simpl. unfold bind.
        unfold outcome in Hy. rewrite Nat.add_0_r in Hy.
        rewrite (attempt_once_yields _ _ _ _ _ Hy). unfold ret, advance, tick. simpl.
        do 2 f_equal. lia.
      * destruct (Hstep i Hf) as (err0 & Hone & _ & Hrest).
        simpl. unfold bind. rewrite Hone. unfold sleep.
        destruct (IH (Some err0) (log (Sleep (PyFloat.of_int (2 ^ a0))) (tick (Post ep0) st)))
          as (IHy & _ & _).
        rewrite (IHy i ep a data Hi).
        -- by rewrite advance_tick.
        -- intros j epj aj Hj Hl. rewrite <- Hshift. by apply (Hrest j epj aj).
        -- by rewrite <- Hshift.
    + intros [|i] ep a e Hi Hf Ha.
      * injection Hi as <- <-. simpl. unfold bind.
        unfold outcome in Ha. rewrite Nat.add_0_r in Ha.
        rewrite (attempt_once_aborts _ _ _ _ _ Ha). unfold advance, tick. simpl.
        do 2 f_equal. lia.
      * destruct (Hstep i Hf) as (err0 & Hone & _ & Hrest).
        simpl. unfold bind. rewrite Hone. unfold sleep.
        destruct (IH (Some err0) (log (Sleep (PyFloat.of_int (2 ^ a0))) (tick (Post ep0) st)))
          as (_ & IHa & _).
        rewrite (IHa i ep a e Hi).
        -- by rewrite advance_tick.
        -- intros j epj aj Hj Hl. rewrite <- Hshift. by apply (Hrest j epj aj).
        -- by rewrite <- Hshift.
    + intros Hf. simpl in Hf.
      destruct (Hstep (length rest) Hf) as (err0 & Hone & H0 & Hrest).
      destruct (IH (Some err0) (log (Sleep (PyFloat.of_int (2 ^ a0))) (tick (Post ep0) st)))
        as (_ & _ & IHf).
      destruct IHf as (le' & Hrun & Hnil & Hlast).
      { intros j epj aj Hj Hl. rewrite <- Hshift. by apply (Hrest j epj aj). }
      exists le'. split; [|split; [discriminate|]].
      * simpl. unfold bind. rewrite Hone. unfold sleep. rewrite Hrun.
        by rewrite advance_tick.
      * intros ep a Hl. destruct rest as [|p rest'].
        -- simpl in Hl. injection Hl as <- <-. exists err0. split; [exact H0|by apply Hnil].
        -- change (last (p :: rest') = Some (ep, a)) in Hl.
           destruct (Hlast ep a Hl) as (err & Herr & ->). exists err. split; [|done].
           rewrite <- Hshift in Herr.
           replace (length ((ep0, a0) :: p :: rest') - 1)%nat
             with (S (length (p :: rest') - 1)) by (simpl; lia).
           exact Herr.
Qed.

Lemma run_schedule_cases (W : World) (query : string) (sched : list (string * Z)) :
  forall (st : io_state),
  let outcome (i : nat) (ep : string) :=
    requests_post W (requests_made st + i) ep query in
  let failed_before (i : nat) :=
    forall j ep (a : Z), (j < i)%nat -> sched !! j = Some (ep, a) ->
      exists err, fails_with ep (outcome j ep) err in
  (exists i ep a data,
     sched !! i = Some (ep, a) /\ failed_before i /\ yields_200 (outcome i ep) data)
  \/ (exists i ep a e,
        sched !! i = Some (ep, a) /\ failed_before i /\ aborts_with (outcome i ep) e)
  \/ failed_before (length sched).
Proof.
  induction sched as [|[ep0 a0] rest IH]; intros st outcome failed_before.
  - right. right. intros j ep a Hj. simpl in Hj. lia.
  - destruct (attempt_outcomes ep0 (outcome 0%nat ep0)) as [[data Hy]|[[err0 Hf]|[e Ha]]].
    + left. exists 0%nat, ep0, a0, data. repeat split; [|done]. intros j ep a Hj. lia.
    + assert (Hext : forall i,
                (forall j ep (a : Z), (j < i)%nat -> rest !! j = Some (ep, a) ->
                   exists err,
                     fails_with ep (requests_post W (requests_made st + 1 + j) ep query) err) ->
                failed_before (S i)).
      { intros i Hi [|j] ep a Hj Hl.
        - injection Hl as <- <-. eauto.
        - unfold outcome. replace (requests_made st + S j)%nat
            with (requests_made st + 1 + j)%nat by lia.
          apply (Hi j ep a); [lia|done]. }
      destruct (IH {| requests_made := requests_made st + 1; trace := [] |})
        as [(i & ep & a & data & Hl & Hb & Hy)|[(i & ep & a & e & Hl & Hb & Ha)|Hall]];
        simpl in *.
      * left. exists (S i), ep, a, data. repeat split; [done|by apply Hext|].
        unfold outcome. by replace (requests_made st + S i)%nat
          with (requests_made st + 1 + i)%nat by lia.
      * right. left. exists (S i), ep, a, e. repeat split; [done|by apply Hext|].
        unfold outcome. by replace (requests_made st + S i)%nat
          with (requests_made st + 1 + i)%nat by lia.
      * right. right. by apply Hext.
    + right. left. exists 0%nat, ep0, a0, e. repeat split; [|done]. intros j ep a Hj. lia.
Qed.

Lemma fails_not_aborts (ep : string) (o : exn + PostResponse) (err : string) (e : exn) :
  fails_with ep o err -> aborts_with o e -> False.
Proof.
  intros [(r & -> & H2 & _)|(n & m & [->|(r & -> & H2 & Hj)] & _)]
         (n' & m' & -> & [Ho|(r' & Ho & H2' & Hj')]); try congruence.
Qed.

Lemma fails_not_yields (ep : string) (o : exn + PostResponse) (err : string)
    (data : OverpassData) :
  fails_with ep o err -> yields_200 o data -> False.
Proof.
  intros [(r & -> & H2 & _)|(n & m & [->|(r & -> & H2 & Hj)] & _)]
         (r' & Ho & H2' & Hj'); try congruence.
Qed.

(** C4. With the default of 4 attempts the retry function works through
    the twelve (mirror, attempt) pairs in priority order.  While attempts
    fail (a status other than 200, or a [RequestException]) each costs one
    request followed by a pause of [2 ^ attempt] seconds; the first
    attempt that yields HTTP 200 with a JSON body ends the call, which
    returns that body, whatever failed before it; if all twelve fail the
    call raises [RuntimeError] with the detail of the last failure.  The
    call returns only through a 200 answer, and, unless the world raises
    an exception that is not a [RequestException], it raises exactly when
    all twelve attempts failed. *)
Theorem overpass_retry_protocol (W : World) (query : string) (st : io_state) :
  let sched := schedule 4 in
  let run := overpass_post_with_retries W query 4 st in
  let outcome (i : nat) (ep : string) :=
    requests_post W (requests_made st + i) ep query in
  let failed_before (i : nat) :=
    forall j ep (a : Z), (j < i)%nat -> sched !! j = Some (ep, a) ->
      exists err, fails_with ep (outcome j ep) err in
  sched = flat_map (fun ep => [(ep, 1); (ep, 2); (ep, 3); (ep, 4)]) OVERPASS_ENDPOINTS
  /\ (forall i ep a data,
        sched !! i = Some (ep, a) -> failed_before i -> yields_200 (outcome i ep) data ->
        run = (inr data, advance st (S i) (backoff (take i sched) ++ [Post ep])))
  /\ (failed_before 12%nat ->
        exists err,
          fails_with "https://overpass.nchc.org.tw/api/interpreter"
            (outcome 11%nat "https://overpass.nchc.org.tw/api/interpreter") err
          /\ run = (inl (OtherException "RuntimeError"
                           ("Overpass failed after retries. Last error: " +:+ err)),
                    advance st 12%nat (backoff sched)))
  /\ (forall data st', run = (inr data, st') ->
        exists i ep a,
          sched !! i = Some (ep, a) /\ failed_before i /\ yields_200 (outcome i ep) data)
  /\ (forall e st', run = (inl e, st') ->
        failed_before 12%nat
        \/ exists i ep a,
             sched !! i = Some (ep, a) /\ failed_before i /\ aborts_with (outcome i ep) e)
  /\ ((forall i ep a e, sched !! i = Some (ep, a) -> ~ aborts_with (outcome i ep) e) ->
        (exists e st', run = (inl e, st')) <-> failed_before 12%nat).
Proof.
  intros sched run outcome failed_before.
  assert (Hrun : run = match run_schedule W query sched None st with
                       | (inl e, st') => (inl e, st')
                       | (inr (inl data), st') => (inr data, st')
                       | (inr (inr last_err), st') =>
                           (inl (OtherException "RuntimeError"
                                   ("Overpass failed after retries. Last error: "
                                    +:+ opt_str last_err)), st')
                       end).
  { unfold run, overpass_post_with_retries, bind. rewrite endpoints_loop_run.
    fold (schedule 4). fold sched.
    by destruct (run_schedule W query sched None st) as [[e|[data|le]] st1]. }
  destruct (run_schedule_spec W query sched None st) as (Hy & Ha & Hf).
  fold outcome in Hy, Ha, Hf. fold failed_before in Hy, Ha, Hf.
  assert (Hall : failed_before 12%nat ->
            exists err,
              fails_with "https://overpass.nchc.org.tw/api/interpreter"
                (outcome 11%nat "https://overpass.nchc.org.tw/api/interpreter") err
              /\ run = (inl (OtherException "RuntimeError"
                               ("Overpass failed after retries. Last error: " +:+ err)),
                        advance st 12%nat (backoff sched))).
  { intros H12. destruct (Hf H12) as (le & Hr & _ & Hlast).
    destruct (Hlast "https://overpass.nchc.org.tw/api/interpreter" 4 eq_refl)
      as (err & Herr & ->).
    exists err. split; [exact Herr|]. by rewrite Hrun, Hr. }
  split; [reflexivity|]. split; [|split; [exact Hall|split; [|split]]].
  - intros i ep a data Hi Hb Hd. by rewrite Hrun, (Hy i ep a data Hi Hb Hd).
  - intros data st' Hr.
    destruct (run_schedule_cases W query sched st)
      as [(i & ep & a & d & Hl & Hb & Hd)|[(i & ep & a & e & Hl & Hb & Hab)|H12]].
    + rewrite Hrun, (Hy i ep a d Hl Hb Hd) in Hr. injection Hr as <- _. eauto 10.
    + rewrite Hrun, (Ha i ep a e Hl Hb Hab) in Hr. discriminate.
    + destruct (Hall H12) as (err & _ & Hr'). congruence.
  - intros e st' Hr.
    destruct (run_schedule_cases W query sched st)
      as [(i & ep & a & d & Hl & Hb & Hd)|[(i & ep & a & e' & Hl & Hb & Hab)|H12]].
    + rewrite Hrun, (Hy i ep a d Hl Hb Hd) in Hr. discriminate.
    + rewrite Hrun, (Ha i ep a e' Hl Hb Hab) in Hr. injection Hr as <- _. right. eauto 10.
    + by left.
  - intros Hno. split.
    + intros (e & st' & Hr).
      destruct (run_schedule_cases W query sched st)
        as [(i & ep & a & d & Hl & Hb & Hd)|[(i & ep & a & e' & Hl & Hb & Hab)|H12]].
      * rewrite Hrun, (Hy i ep a d Hl Hb Hd) in Hr. discriminate.
      * destruct (Hno i ep a e' Hl Hab).
      * exact H12.
    + intros H12. destruct (Hall H12) as (err & _ & Hr). eauto.
Qed.

Lemma In_range (n z : Z) : In z (range n) <-> 0 <= z < n.
Proof.
  unfold range. rewrite in_map_iff. split.
  - intros (i & <- & Hi). apply in_seq in Hi. lia.
  - intros Hz. exists (Z.to_nat z). split; [lia|]. apply in_seq. lia.
Qed.

Lemma range_lookup (n z : Z) : 0 <= z < n -> range n !! Z.to_nat z = Some z.
Proof.
  intros Hz. unfold range. rewrite list_lookup_fmap, lookup_seq_lt by lia.
  simpl. f_equal. lia.
Qed.

Lemma range_length (n : Z) : length (range n) = Z.to_nat n.
Proof. unfold range. by rewrite length_map, length_seq. Qed.

Lemma flat_map_lookup {A B : Type} (h : A -> list B) (m : nat) (l : list A) :
  (forall a, In a l -> length (h a) = m) ->
  forall i j a y, l !! i = Some a -> h a !! j = Some y ->
    flat_map h l !! (i * m + j)%nat = Some y.
Proof.
  induction l as [|x l IH]; intros Hlen i j a y Hi Hj; [by rewrite lookup_nil in Hi|].
  simpl. destruct i as [|i]; simpl in *.
  - injection Hi as ->. by apply lookup_app_l_Some.
  - rewrite lookup_app_r; rewrite (Hlen x (or_introl eq_refl)); [|lia].
    replace (m + i * m + j - m)%nat with (i * m + j)%nat by lia.
    apply (IH (fun a' Ha => Hlen a' (or_intror Ha)) i j a y Hi Hj).
Qed.

Lemma flat_map_length_const {A B : Type} (h : A -> list B) (m : nat) (l : list A) :
  (forall a, In a l -> length (h a) = m) -> length (flat_map h l) = (length l * m)%nat.
Proof.
  induction l as [|x l IH]; intros Hlen; simpl; [done|].
  rewrite length_app, (Hlen x (or_introl eq_refl)), IH; [done|].
  intros a Ha. apply Hlen. by right.
Qed.

Section Grid.
Context {F : Type} `{Arith F}.

Lemma tile_bbox_tiles (b : bbox F) (rows cols : Z) :
  0 < rows -> 0 < cols ->
  tile_bbox b rows cols
  = Some (flat_map (fun r => map (tile_at b rows cols r) (range cols)) (range rows)).
Proof.
  intros Hr Hc. destruct b as [[[s w] n] e]. unfold tile_bbox.
  destruct (rows =? 0) eqn:Er; [apply Z.eqb_eq in Er; lia|].
  destruct (cols =? 0) eqn:Ec; [apply Z.eqb_eq in Ec; lia|].
  reflexivity.
Qed.

Lemma tile_bbox_grid (b : bbox F) (rows cols : Z) :
  0 < rows -> 0 < cols ->
  exists tiles,
    tile_bbox b rows cols = Some tiles
    /\ length tiles = Z.to_nat (rows * cols)
    /\ (forall r c, 0 <= r < rows -> 0 <= c < cols ->
          tiles !! Z.to_nat (r * cols + c) = Some (tile_at b rows cols r c))
    /\ (forall t, In t tiles <->
          exists r c, 0 <= r < rows /\ 0 <= c < cols /\ t = tile_at b rows cols r c).
Proof.
  intros Hr Hc. eexists. split; [by apply tile_bbox_tiles|].
  assert (Hlen : forall r, In r (range rows) ->
            length (map (tile_at b rows cols r) (range cols)) = Z.to_nat cols).
  { intros r _. by rewrite length_map, range_length. }
  split; [|split].
  - rewrite (flat_map_length_const _ _ _ Hlen), range_length. lia.
  - intros r c Hr' Hc'.
    replace (Z.to_nat (r * cols + c)) with (Z.to_nat r * Z.to_nat cols + Z.to_nat c)%nat
      by nia.
    apply (flat_map_lookup _ _ _ Hlen _ _ r); [by apply range_lookup|].
    rewrite list_lookup_fmap, range_lookup by done. reflexivity.
  - intros t. rewrite in_flat_map. split.
    + intros (r & Hr' & Ht). apply in_map_iff in Ht as (c & <- & Hc').
      apply In_range in Hr', Hc'. eauto.
    + intros (r & c & Hr' & Hc' & ->). exists r. split; [by apply In_range|].
      apply in_map. by apply In_range.
Qed.
End Grid.

Section Intervals.
Variables (lo hi : Q) (parts : Z).
Hypothesis Hlohi : (lo < hi)%Q.
Hypothesis Hparts : 0 < parts.








End Intervals.





(** For the box and the 3 x 3 grid the script is configured with, the
    rounding does no harm: the last tile ends at the north and east edges
    of the box. *)
Example rawalpindi_tiles_reach_the_box :
  (fun t => (north t, east t)) <$> last demo_tiles
  = Some (north RAWALPINDI_BBOX, east RAWALPINDI_BBOX).
Proof. vm_compute. reflexivity. Qed.

(** ** The theorems at concrete inputs *)

(** C1 on three rows built by [audit_row]. *)
Lemma no_app_rows_spec_witness :
  (forall row, In row demo_rows ->
     is_Some (PyFloat.float_of_string (row_confidence row)))
  /\ exists out,
       no_app_rows demo_rows = Some out
       /\ (forall row, In row out <-> In row demo_rows /\ no_app_condition row)
       /\ (forall row, In row out ->
             website (restaurant row) <> ""
             /\ forall c, PyFloat.float_of_string (row_confidence row) = Some c ->
                          SFltb c NO_APP_CONF_THRESHOLD = false).
Proof.
  assert (H : forall row, In row demo_rows ->
                is_Some (PyFloat.float_of_string (row_confidence row))).
  { intros row [<-|[<-|[<-|[]]]]; vm_compute; eauto. }
  split; [exact H|exact (no_app_rows_spec demo_rows H)].
Defined.




(** C4 when the first mirror answers HTTP 500 four times and the second
    mirror answers 200: the call returns the body after five requests and
    pauses of 2, 4, 8 and 16 seconds. *)
Lemma overpass_retry_protocol_witness :
  overpass_post_with_retries demo_world "query" 4 start
  = (inr demo_data,
     advance start 5
       (backoff (take 4 (schedule 4)) ++ [Post "https://overpass.kumi.systems/api/interpreter"])).
Proof.
  destruct (overpass_retry_protocol demo_world "query" start) as (_ & Hy & _).
  apply (Hy 4%nat "https://overpass.kumi.systems/api/interpreter" 1 demo_data).
  - reflexivity.
  - intros j ep a Hj Hl. eexists. left. eexists. split; [|split; [|reflexivity]].
    + simpl. destruct j as [|[|[|[|j]]]]; [reflexivity..|lia].
    + simpl. discriminate.
  - eexists. split; [reflexivity|]. split; reflexivity.
Defined.

(** The whole script in the two worlds: a homepage with a store link gives
    an audit row with has_any_app = 1 and is left out of the no-app list; a
    homepage with none of the patterns gives the verdict
    no_store_links_found_on_homepage, "0.85", and is kept. *)
Example main_store_link :
  exists row st',
    main demo_world start = (inr ([row], []), st')
    /\ website (restaurant row) = "https://cafex.com"
    /\ row_has_android_app row = 1 /\ row_has_any_app row = 1
    /\ row_notes row = "store_link_found_on_website" /\ row_confidence row = "0.95".
Proof. eexists _, _. split; [vm_compute; reflexivity|]. repeat split. Qed.

Example main_clean_homepage :
  exists row st',
    main clean_world start = (inr ([row], [row]), st')
    /\ website (restaurant row) = "https://cafex.com"
    /\ row_has_any_app row = 0
    /\ row_notes row = "no_store_links_found_on_homepage" /\ row_confidence row = "0.85".
Proof. eexists _, _. split; [vm_compute; reflexivity|]. repeat split. Qed.

(** ** Further properties of the helpers

    *** Stripping and lower-casing *)

Lemma lower_char_idem (c : ascii) : PyStr.lower_char (PyStr.lower_char c) = PyStr.lower_char c.
Proof. destruct c as [[] [] [] [] [] [] [] []]; reflexivity. Qed.

Lemma isspace_lower_char (c : ascii) : PyStr.isspace (PyStr.lower_char c) = PyStr.isspace c.
Proof. destruct c as [[] [] [] [] [] [] [] []]; reflexivity. Qed.

Lemma lower_idem (s : string) : PyStr.lower (PyStr.lower s) = PyStr.lower s.
Proof. induction s as [|c s IH]; simpl; [reflexivity|]. by rewrite lower_char_idem, IH. Qed.

Lemma lstrip_lower (s : string) :
  PyStr.lstrip_by PyStr.isspace (PyStr.lower s) = PyStr.lower (PyStr.lstrip_by PyStr.isspace s).
Proof.
  induction s as [|c s IH]; simpl; [reflexivity|].
  rewrite isspace_lower_char. destruct (PyStr.isspace c); [exact IH|reflexivity].
Qed.

Lemma rstrip_lower (s : string) :
  PyStr.rstrip_by PyStr.isspace (PyStr.lower s) = PyStr.lower (PyStr.rstrip_by PyStr.isspace s).
Proof.
  induction s as [|c s IH]; simpl; [reflexivity|].
  rewrite IH, isspace_lower_char.
  destruct (PyStr.rstrip_by PyStr.isspace s); simpl; [|reflexivity].
  destruct (PyStr.isspace c); reflexivity.
Qed.

Lemma strip_lower (s : string) : PyStr.strip (PyStr.lower s) = PyStr.lower (PyStr.strip s).
Proof. unfold PyStr.strip. by rewrite lstrip_lower, rstrip_lower. Qed.

Section Strip.

Variable p : ascii -> bool.

Lemma rstrip_cons (c : ascii) (s : string) :
  PyStr.rstrip_by p (String c s)
  = match PyStr.rstrip_by p s with
    | EmptyString => if p c then EmptyString else String c EmptyString
    | r => String c r
    end.
Proof. reflexivity. Qed.

Lemma rstrip_idem (s : string) :
  PyStr.rstrip_by p (PyStr.rstrip_by p s) = PyStr.rstrip_by p s.
Proof.
  induction s as [|c s IH]; [reflexivity|].
  rewrite rstrip_cons. destruct (PyStr.rstrip_by p s) as [|d r] eqn:E.
  - destruct (p c) eqn:Hc; [reflexivity|]. simpl. by rewrite Hc.
  - rewrite rstrip_cons, IH. reflexivity.
Qed.

Lemma rstrip_keeps_head (c : ascii) (s : string) :
  p c = false -> exists r, PyStr.rstrip_by p (String c s) = String c r.
Proof.
  intros Hc. rewrite rstrip_cons, Hc. destruct (PyStr.rstrip_by p s); eauto.
Qed.

Lemma lstrip_head (s : string) :
  PyStr.lstrip_by p s = EmptyString
  \/ exists c r, PyStr.lstrip_by p s = String c r /\ p c = false.
Proof.
  induction s as [|c s IH]; simpl; [by left|].
  destruct (p c) eqn:Hc; [exact IH|right; eauto].
Qed.

Lemma lstrip_rstrip_fixed (s : string) :
  PyStr.lstrip_by p (PyStr.rstrip_by p (PyStr.lstrip_by p s))
  = PyStr.rstrip_by p (PyStr.lstrip_by p s).
Proof.
  destruct (lstrip_head s) as [->|(c & r & -> & Hc)]; [reflexivity|].
  destruct (rstrip_keeps_head c r Hc) as [r' ->]. simpl. by rewrite Hc.
Qed.

Lemma rstrip_app (a b : string) :
  PyStr.rstrip_by p b <> EmptyString ->
  PyStr.rstrip_by p (a +:+ b) = a +:+ PyStr.rstrip_by p b.
Proof.
  intros Hb. induction a as [|c a IH]; [reflexivity|].
  change (String c a +:+ b) with (String c (a +:+ b)).
  rewrite rstrip_cons, IH.
  destruct (a +:+ PyStr.rstrip_by p b) as [|d r] eqn:E.
  - destruct a; [simpl in E; contradiction|discriminate E].
  - change (String c (String d r) = String c (a +:+ PyStr.rstrip_by p b)). by rewrite E.
Qed.

Lemma lstrip_pad (pad x : string) :
  PyStr.forall_chars p pad = true ->
  PyStr.lstrip_by p (pad +:+ x) = PyStr.lstrip_by p x.
Proof.
  induction pad as [|c pad IH]; simpl; [reflexivity|].
  intros [Hc Hpad]%andb_prop. rewrite Hc. by apply IH.
Qed.

Lemma rstrip_pad (x pad : string) :
  PyStr.forall_chars p pad = true ->
  PyStr.rstrip_by p (x +:+ pad) = PyStr.rstrip_by p x.
Proof.
  intros Hpad. induction x as [|c x IH].
  - change (EmptyString +:+ pad) with pad.
    induction pad as [|c pad IH]; [reflexivity|].
    simpl in Hpad. apply andb_prop in Hpad as [Hc Hpad].
    rewrite rstrip_cons, (IH Hpad), Hc. reflexivity.
  - change (String c x +:+ pad) with (String c (x +:+ pad)).
    by rewrite !rstrip_cons, IH.
Qed.

Lemma strip_pad_right (x pad : string) :
  PyStr.forall_chars p pad = true ->
  PyStr.rstrip_by p (PyStr.lstrip_by p (x +:+ pad))
  = PyStr.rstrip_by p (PyStr.lstrip_by p x).
Proof.
  intros Hpad. induction x as [|c x IH].
  - change (EmptyString +:+ pad) with pad.
    destruct (lstrip_head pad) as [->|(c & r & E & Hc)]; [reflexivity|].
    exfalso. clear -E Hc Hpad. induction pad as [|d pad IH]; [discriminate E|].
    simpl in *. apply andb_prop in Hpad as [Hd Hpad]. rewrite Hd in E. by apply IH.
  - change (String c x +:+ pad) with (String c (x +:+ pad)). simpl.
    destruct (p c); [exact IH|].
    change (String c (x +:+ pad)) with (String c x +:+ pad). by apply rstrip_pad.
Qed.

End Strip.

Lemma strip_idem (s : string) : PyStr.strip (PyStr.strip s) = PyStr.strip s.
Proof. unfold PyStr.strip. by rewrite lstrip_rstrip_fixed, rstrip_idem. Qed.

Lemma strip_pad (pad1 x pad2 : string) :
  PyStr.forall_chars PyStr.isspace pad1 = true ->
  PyStr.forall_chars PyStr.isspace pad2 = true ->
  PyStr.strip (pad1 +:+ x +:+ pad2) = PyStr.strip x.
Proof.
  intros H1 H2. unfold PyStr.strip. rewrite lstrip_pad by exact H1.
  by apply strip_pad_right.
Qed.

(** *** [normalize_url] *)

Lemma startswith_prepend (p x : string) : PyStr.startswith p (p +:+ x) = true.
Proof.
  unfold PyStr.startswith. induction p as [|c p IH].
  - by destruct x.
  - change (String c p +:+ x) with (String c (p +:+ x)). simpl.
    destruct (ascii_dec c c); [exact IH|contradiction].
Qed.

Lemma normalize_url_fixed (W : World) (url u : string) :
  normalize_url W url = Some u ->
  PyStr.strip u = u
  /\ (PyStr.startswith "http://" u = true \/ PyStr.startswith "https://" u = true).
Proof.
  intros (Hne & Hu & _)%normalize_url_spec. cbv zeta in Hu.
  destruct (PyStr.startswith "http://" (PyStr.strip url)
            || PyStr.startswith "https://" (PyStr.strip url)) eqn:Hpre.
  - subst u. split; [apply strip_idem|]. by apply orb_prop in Hpre.
  - subst u. split; [|right; apply startswith_prepend].
    unfold PyStr.strip at 1.
    change (PyStr.lstrip_by PyStr.isspace ("https://" +:+ PyStr.strip url))
      with ("https://" +:+ PyStr.strip url).
    assert (Hfix : PyStr.rstrip_by PyStr.isspace (PyStr.strip url) = PyStr.strip url)
      by apply rstrip_idem.
    rewrite rstrip_app by (by rewrite Hfix). by rewrite Hfix.
Qed.

Lemma normalize_url_again (W : World) (url u : string) :
  normalize_url W url = Some u -> normalize_url W u = Some u.
Proof.
  intros Hn. destruct (normalize_url_fixed W url u Hn) as [Hs Hpre].
  pose proof Hn as (Hne & Hu & Hparsed)%normalize_url_spec. cbv zeta in Hu.
  apply normalize_url_spec. cbv zeta. rewrite Hs.
  assert (Hor : PyStr.startswith "http://" u || PyStr.startswith "https://" u = true)
    by (destruct Hpre as [->| ->]; [reflexivity|apply orb_true_r]).
  rewrite Hor. split; [|split; [reflexivity|exact Hparsed]].
  intros ->. destruct Hpre as [H|H]; discriminate H.
Qed.

(** X1. Normalising is idempotent: a URL that [normalize_url] returns is
    returned unchanged when it is normalised again, so the classifier
    behaves on the normalised URL exactly as on the original one. *)
Theorem normalize_url_idempotent (W : World) (url u : string) :
  normalize_url W url = Some u ->
  normalize_url W u = Some u
  /\ forall st,
       scrape_website_for_app_links W u st = scrape_website_for_app_links W url st.
Proof.
  intros Hn. pose proof (normalize_url_again W url u Hn) as Hu.
  split; [exact Hu|]. intros st. unfold scrape_website_for_app_links.
  by rewrite Hn, Hu.
Qed.

(** X2. Whatever [normalize_url] returns is the stripped input, with
    [https://] put in front unless it already began with [http://] or
    [https://]: it has no surrounding whitespace, begins with one of the
    two prefixes in lower case, and parses to scheme [http] or [https] with
    a non-empty host. *)
Theorem normalize_url_result_shape (W : World) (url u : string) :
  normalize_url W url = Some u ->
  PyStr.strip url <> ""
  /\ u = (if PyStr.startswith "http://" (PyStr.strip url)
              || PyStr.startswith "https://" (PyStr.strip url)
          then PyStr.strip url
          else "https://" +:+ PyStr.strip url)
  /\ PyStr.strip u = u
  /\ (PyStr.startswith "http://" u = true \/ PyStr.startswith "https://" u = true)
  /\ exists parsed,
       urlparse W u = Some parsed
       /\ (scheme parsed = "http" \/ scheme parsed = "https")
       /\ netloc parsed <> "".
Proof.
  intros Hn. destruct (normalize_url_fixed W url u Hn) as [Hs Hpre].
  pose proof Hn as (Hne & Hu & parsed & Hparsed & Hloc)%normalize_url_spec. cbv zeta in Hu.
  split; [exact Hne|]. split; [exact Hu|]. split; [exact Hs|]. split; [exact Hpre|].
  exists parsed. split; [exact Hparsed|split; [|exact Hloc]].
  destruct Hpre as [[r Hr]%startswith_app|[r Hr]%startswith_app]; rewrite Hr in Hparsed.
  - left. by eapply prefixed_scheme.
  - right. by eapply prefixed_scheme.
Qed.

(** X3. Whitespace around the input does not matter: a URL between two
    runs of whitespace normalises to the same result as the URL itself,
    so the classifier treats both alike. *)
Theorem normalize_url_ignores_padding (W : World) (pad1 url pad2 : string) :
  PyStr.forall_chars PyStr.isspace pad1 = true ->
  PyStr.forall_chars PyStr.isspace pad2 = true ->
  normalize_url W (pad1 +:+ url +:+ pad2) = normalize_url W url
  /\ forall st,
       scrape_website_for_app_links W (pad1 +:+ url +:+ pad2) st
       = scrape_website_for_app_links W url st.
Proof.
  intros H1 H2.
  assert (Hn : normalize_url W (pad1 +:+ url +:+ pad2) = normalize_url W url).
  { assert (Hiff : forall u, normalize_url W (pad1 +:+ url +:+ pad2) = Some u
                             <-> normalize_url W url = Some u).
    { intros u. rewrite !normalize_url_spec. cbv zeta. by rewrite strip_pad. }
    destruct (normalize_url W (pad1 +:+ url +:+ pad2)) as [u|].
    - symmetry. by apply Hiff.
    - destruct (normalize_url W url) as [u|]; [|reflexivity]. by apply Hiff. }
  split; [exact Hn|]. intros st. unfold scrape_website_for_app_links. by rewrite Hn.
Qed.

(** *** [extract_address] *)

Lemma join_empty (sep : string) (parts : list string) :
  Forall (fun part => part <> "") parts ->
  PyStr.join sep parts = "" -> parts = [].
Proof.
  intros Hparts. destruct Hparts as [|part rest Hpart _]; [reflexivity|].
  simpl. destruct rest.
  - intros ->. contradiction.
  - destruct part; [contradiction|discriminate].
Qed.

Lemma tag_truthy (tags : gmap string string) (k v : string) :
  tag tags k = Some v -> tags !! k = Some v /\ v <> "".
Proof.
  unfold tag. destruct (tags !! k) as [v'|]; [|discriminate].
  destruct (PyStr.truthy v') eqn:Hv; [|discriminate].
  intros [= <-]. split; [reflexivity|]. by apply truthy_spec.
Qed.

(** X4. The address is the empty string exactly when none of the four
    address tags is present with a non-empty value, and no other tag has
    any influence on it. *)
Theorem extract_address_empty_iff (tags : gmap string string) :
  let keys := ["addr:housenumber"; "addr:street"; "addr:suburb"; "addr:city"] in
  (extract_address tags = "" <-> forall k, In k keys -> tag tags k = None)
  /\ (forall k v, ~ In k keys -> extract_address (<[k := v]> tags) = extract_address tags).
Proof.
  cbv zeta. split; [split|].
  - intros He k Hk. unfold extract_address in He.
    apply join_empty in He.
    + destruct (tag tags k) as [v|] eqn:Hv; [|reflexivity].
      assert (Hin : v ∈ omap (tag tags)
                      ["addr:housenumber"; "addr:street"; "addr:suburb"; "addr:city"]).
      { apply list_elem_of_omap. exists k. split; [by apply list_elem_of_In|exact Hv]. }
      rewrite He in Hin. by apply elem_of_nil in Hin.
    + apply List.Forall_forall. intros v Hv%list_elem_of_In.
      apply list_elem_of_omap in Hv as (k' & _ & Hv). by apply tag_truthy in Hv as [_ Hv].
  - intros Hnone. unfold extract_address. simpl.
    rewrite !Hnone by (simpl; tauto). reflexivity.
  - intros k v Hk. unfold extract_address.
    assert (Htag : forall k', In k' ["addr:housenumber"; "addr:street"; "addr:suburb"; "addr:city"] ->
              tag (<[k := v]> tags) k' = tag tags k').
    { intros k' Hk'. unfold tag. rewrite lookup_insert_ne; [reflexivity|].
      intros ->. contradiction. }
    simpl. rewrite !Htag by (simpl; tauto). reflexivity.
Qed.

(** *** [dedupe_key] *)

(** X5. The key ignores letter case and surrounding whitespace in the name
    and in the website: names with the same lower-casing, also when one of
    them stands between runs of whitespace, give the same key, and so do
    websites. *)
Theorem dedupe_key_ignores_case_and_padding (W : World) (name1 name2 website1 website2 : string)
    (pad1 pad2 pad3 pad4 : string) (lat lon : option float) :
  PyStr.lower name1 = PyStr.lower name2 ->
  PyStr.lower website1 = PyStr.lower website2 ->
  PyStr.forall_chars PyStr.isspace pad1 = true ->
  PyStr.forall_chars PyStr.isspace pad2 = true ->
  PyStr.forall_chars PyStr.isspace pad3 = true ->
  PyStr.forall_chars PyStr.isspace pad4 = true ->
  dedupe_key W (pad1 +:+ name1 +:+ pad2) (pad3 +:+ website1 +:+ pad4) lat lon
  = dedupe_key W name2 website2 lat lon.
Proof.
  intros Hname Hweb H1 H2 H3 H4.
  unfold dedupe_key. rewrite !strip_pad by assumption.
  rewrite <- !strip_lower, Hname, Hweb. reflexivity.
Qed.

(** *** [overpass_post_with_retries] *)

Lemma attempt_once_state (W : World) (endpoint query : string) (st : io_state) :
  (attempt_once W endpoint query st).2 = tick (Post endpoint) st.
Proof.
  unfold attempt_once, attempt_body, try_except, bind, post, lift, ret, raise.
  destruct (requests_post W (requests_made st) endpoint query) as [[]|r]; simpl;
    try reflexivity.
  destruct (post_status_code r =? 200); [|reflexivity].
  destruct (post_json r) as [[]|]; reflexivity.
Qed.

Lemma run_schedule_budget (W : World) (query : string) (sched : list (string * Z)) :
  forall (last_err : option string) (st : io_state),
  let run := run_schedule W query sched last_err st in
  (requests_made st <= requests_made run.2 <= requests_made st + length sched)%nat
  /\ (forall data, run.1 = inr (inl data) -> (requests_made st < requests_made run.2)%nat)
  /\ (sched <> [] -> (requests_made st < requests_made run.2)%nat)
  /\ exists events,
       trace run.2 = trace st ++ events
       /\ Forall (fun ev => exists ep a,
                    In (ep, a) sched
                    /\ (ev = Post ep \/ ev = Sleep (PyFloat.of_int (2 ^ a)))) events.
Proof.
  induction sched as [|[ep a] rest IH]; intros last_err st; cbv zeta.
  - simpl. split; [lia|]. split; [discriminate|]. split; [congruence|].
    exists []. by rewrite app_nil_r.
  - assert (Hrun : run_schedule W query ((ep, a) :: rest) last_err st
                   = match attempt_once W ep query st with
                     | (inl e, st1) => (inl e, st1)
                     | (inr (inl data), st1) => (inr (inl data), st1)
                     | (inr (inr err), st1) =>
                         run_schedule W query rest (Some err)
                           (log (Sleep (PyFloat.of_int (2 ^ a))) st1)
                     end).
    { cbn [run_schedule]. unfold bind, sleep, ret.
      by destruct (attempt_once W ep query st) as [[e|[data|err]] st1]. }
    rewrite Hrun. clear Hrun.
    pose proof (attempt_once_state W ep query st) as Hst.
    destruct (attempt_once W ep query st) as [[e|[data|err]] st1]; simpl in Hst; subst st1.
    + simpl. split; [lia|]. split; [discriminate|]. split; [lia|].
      exists [Post ep]. split; [reflexivity|].
      constructor; [|constructor]. exists ep, a. split; [by left|by left].
    + simpl. split; [lia|]. split; [lia|]. split; [lia|].
      exists [Post ep]. split; [reflexivity|].
      constructor; [|constructor]. exists ep, a. split; [by left|by left].
    + destruct (IH (Some err) (log (Sleep (PyFloat.of_int (2 ^ a))) (tick (Post ep) st)))
        as (Hreq & Hdata & _ & events & Htrace & Hevents).
      simpl in Hreq, Hdata, Htrace.
      split; [simpl; lia|]. split; [intros data Hd; specialize (Hdata data Hd); lia|].
      split; [simpl; lia|].
      exists (Post ep :: Sleep (PyFloat.of_int (2 ^ a)) :: events).
      split; [rewrite Htrace, <- !app_assoc; reflexivity|].
      constructor; [exists ep, a; split; [by left|by left]|].
      constructor; [exists ep, a; split; [by left|by right]|].
      eapply Forall_impl; [exact Hevents|].
      intros ev (ep' & a' & Hin & Hev). exists ep', a'. split; [by right|exact Hev].
Qed.

Lemma In_schedule (max_attempts : Z) (ep : string) (a : Z) :
  In (ep, a) (schedule max_attempts) <-> In ep OVERPASS_ENDPOINTS /\ 1 <= a <= max_attempts.
Proof.
  unfold schedule. rewrite in_flat_map. split.
  - intros (ep' & Hep & Hin). apply in_map_iff in Hin as (a' & [= <- <-] & Ha).
    split; [exact Hep|]. unfold range_from in Ha.
    apply in_map_iff in Ha as (z & <- & Hz%In_range). lia.
  - intros [Hep Ha]. exists ep. split; [exact Hep|].
    apply in_map_iff. exists a. split; [reflexivity|].
    unfold range_from. apply in_map_iff. exists (a - 1). split; [lia|].
    apply In_range. lia.
Qed.

Lemma schedule_length (max_attempts : Z) :
  length (schedule max_attempts) = (3 * Z.to_nat max_attempts)%nat.
Proof.
  unfold schedule, OVERPASS_ENDPOINTS. simpl.
  rewrite !length_app, !length_map. unfold range_from.
  rewrite !length_map, range_length. simpl.
  replace (max_attempts + 1 - 1) with max_attempts by lia. lia.
Qed.

Lemma overpass_post_with_retries_state (W : World) (query : string) (max_attempts : Z)
    (st : io_state) :
  (overpass_post_with_retries W query max_attempts st).2
  = (run_schedule W query (schedule max_attempts) None st).2
  /\ forall data,
       (overpass_post_with_retries W query max_attempts st).1 = inr data ->
       (run_schedule W query (schedule max_attempts) None st).1 = inr (inl data).
Proof.
  unfold overpass_post_with_retries, bind. rewrite endpoints_loop_run.
  fold (schedule max_attempts).
  destruct (run_schedule W query (schedule max_attempts) None st) as [[e|[data|err]] st'];
    simpl; split; try reflexivity; try discriminate.
  by intros data' [= ->].
Qed.

(** X6. With no attempt allowed ([max_attempts] zero or negative) the
    retry function posts nothing and pauses nowhere: it raises its
    [RuntimeError] at once, with [None] as the last error. *)
Theorem overpass_no_attempts (W : World) (query : string) (max_attempts : Z) (st : io_state) :
  max_attempts <= 0 ->
  overpass_post_with_retries W query max_attempts st
  = (inl (OtherException "RuntimeError" "Overpass failed after retries. Last error: None"), st).
Proof.
  intros Hm. unfold overpass_post_with_retries, bind. rewrite endpoints_loop_run.
  assert (Hrange : range_from 1 (max_attempts + 1) = []).
  { unfold range_from, range. by replace (Z.to_nat (max_attempts + 1 - 1)) with 0%nat by lia. }
  rewrite Hrange. reflexivity.
Qed.

(** X7. One call of the retry function makes at most three times
    [max_attempts] requests and at least one when [max_attempts] is
    positive; it only appends to the trace, and what it appends are POSTs
    to the three mirrors and pauses of [2 ^ attempt] seconds with
    [attempt] between 1 and [max_attempts], never a GET. *)
Theorem overpass_request_budget (W : World) (query : string) (max_attempts : Z)
    (st : io_state) :
  let st' := (overpass_post_with_retries W query max_attempts st).2 in
  (requests_made st <= requests_made st'
   <= requests_made st + 3 * Z.to_nat max_attempts)%nat
  /\ (0 < max_attempts -> (requests_made st < requests_made st')%nat)
  /\ exists events,
       trace st' = trace st ++ events /\ Forall (retry_event max_attempts) events.
Proof.
  cbv zeta. destruct (overpass_post_with_retries_state W query max_attempts st) as [-> _].
  destruct (run_schedule_budget W query (schedule max_attempts) None st)
    as (Hreq & _ & Hpos & events & Htrace & Hevents).
  rewrite schedule_length in Hreq. split; [exact Hreq|]. split.
  - intros Hm. apply Hpos. intros Hnil.
    pose proof (schedule_length max_attempts) as Hlen. rewrite Hnil in Hlen. simpl in Hlen. lia.
  - exists events. split; [exact Htrace|].
    eapply Forall_impl; [exact Hevents|].
    intros ev (ep & a & [Hep Ha]%In_schedule & [-> | ->]); simpl; [exact Hep|eauto].
Qed.

(** *** [overpass_fetch_restaurants_tiled] *)

Lemma tile_lists_cons (W : World) (tb : bbox float) (rest : list (bbox float))
    (st : io_state) :
  tile_lists W (tb :: rest) st
  = match overpass_post_with_retries W (overpass_query_for_bbox W tb) 4 st with
    | (inl e, st1) => (inl e, st1)
    | (inr data, st1) =>
        match tile_lists W rest (log (Sleep (PyFloat.of_int 1)) st1) with
        | (inl e, st2) => (inl e, st2)
        | (inr lists, st2) => (inr (default [] (elements data) :: lists), st2)
        end
    end.
Proof.
  cbn [tile_lists]. unfold bind, sleep, ret.
  destruct (overpass_post_with_retries W (overpass_query_for_bbox W tb) 4 st)
    as [[e|data] st1]; [reflexivity|].
  by destruct (tile_lists W rest (log (Sleep (PyFloat.of_int 1)) st1)) as [[e|lists] st2].
Qed.

Lemma tile_lists_raises (W : World) (tiles : list (bbox float)) :
  forall (st st' : io_state) (e : exn),
  tile_lists W tiles st = (inl e, st') <->
  exists pre tb post lists st1,
    tiles = pre ++ tb :: post
    /\ tile_lists W pre st = (inr lists, st1)
    /\ overpass_post_with_retries W (overpass_query_for_bbox W tb) 4 st1 = (inl e, st').
Proof.
  induction tiles as [|tb rest IH]; intros st st' e.
  - split; [discriminate|]. intros (pre & tb & post & _ & _ & Hnil & _).
    by destruct pre.
  - rewrite tile_lists_cons. split.
    + destruct (overpass_post_with_retries W (overpass_query_for_bbox W tb) 4 st)
        as [[e1|data] st1] eqn:Hpost.
      * intros [= <- <-]. exists [], tb, rest, [], st. by repeat split.
      * destruct (tile_lists W rest (log (Sleep (PyFloat.of_int 1)) st1))
          as [[e2|lists] st2] eqn:Hrest; [|discriminate].
        intros [= <- <-]. apply IH in Hrest as (pre & tb' & post & lists & st3 & -> & Hpre & He).
        exists (tb :: pre), tb', post, (default [] (elements data) :: lists), st3.
        split; [reflexivity|]. split; [|exact He].
        by rewrite tile_lists_cons, Hpost, Hpre.
    + intros (pre & tb' & post & lists & st1 & Htiles & Hpre & He).
      destruct pre as [|tb0 pre].
      * injection Htiles as <- <-. injection Hpre as <- <-. by rewrite He.
      * injection Htiles as <- ->. rewrite tile_lists_cons in Hpre.
        destruct (overpass_post_with_retries W (overpass_query_for_bbox W tb) 4 st)
          as [[e1|data] st2]; [discriminate|].
        destruct (tile_lists W pre (log (Sleep (PyFloat.of_int 1)) st2))
          as [[e2|lists'] st3] eqn:Hpre'; [discriminate|].
        injection Hpre as <- <-.
        assert (Hrest : tile_lists W (pre ++ tb' :: post) (log (Sleep (PyFloat.of_int 1)) st2)
                        = (inl e, st')).
        { apply IH. by exists pre, tb', post, lists', st3. }
        by rewrite Hrest.
Qed.

(** X8. The tiled fetch is all or nothing: it raises exactly when the retry
    function raises for one of the tiles after every earlier tile was
    fetched, it raises that same exception, and the elements of the
    earlier tiles are not returned. *)
Theorem tiled_fetch_fails_with_a_tile (W : World) (main_bbox : bbox float)
    (st st' : io_state) (e : exn) :
  overpass_fetch_restaurants_tiled W main_bbox st = (inl e, st') <->
  exists tiles pre tb post lists st1,
    tile_bbox main_bbox TILE_ROWS TILE_COLS = Some tiles
    /\ tiles = pre ++ tb :: post
    /\ tile_lists W pre st = (inr lists, st1)
    /\ overpass_post_with_retries W (overpass_query_for_bbox W tb) 4 st1 = (inl e, st').
Proof.
  unfold overpass_fetch_restaurants_tiled.
  destruct (tile_bbox_grid main_bbox TILE_ROWS TILE_COLS) as (tiles & -> & _);
    [reflexivity|reflexivity|].
  rewrite tiles_loop_tile_lists. split.
  - destruct (tile_lists W tiles st) as [[e1|lists] st1] eqn:Hl; [|discriminate].
    intros [= <- <-]. apply tile_lists_raises in Hl as (pre & tb & post & lists & st2 & H).
    by exists tiles, pre, tb, post, lists, st2.
  - intros (tiles' & pre & tb & post & lists & st1 & [= <-] & H).
    assert (Hl : tile_lists W tiles st = (inl e, st')).
    { apply tile_lists_raises. by exists pre, tb, post, lists, st1. }
    by rewrite Hl.
Qed.



(** *** [scrape_website_for_app_links] *)

Lemma scrape_state (W : World) (website_url : string) (st : io_state) :
  (scrape_website_for_app_links W website_url st).2
  = match normalize_url W website_url with
    | Some target => tick (Get target) st
    | None => st
    end.
Proof.
  unfold scrape_website_for_app_links.
  destruct (normalize_url W website_url) as [target|]; [|reflexivity].
  io_unfold.
  destruct (requests_get W (requests_made st) target) as [[]|resp]; [reflexivity..|].
  destruct (400 <=? resp_status_code resp); [reflexivity|].
  destruct (BeautifulSoup W (resp_text resp)) as [[]|soup]; [reflexivity..|].
  destruct (select_a_href soup) as [[]|anchors]; [reflexivity..|].
  destruct (collect_hrefs W (resp_url resp) anchors []) as [[]|hrefs]; [reflexivity..|].
  destruct (truthy_opt (first_match PLAYSTORE_RE hrefs));
    destruct (truthy_opt (first_match APPLE_APPS_RE hrefs)); cbn [has_android_app has_ios_app set_android set_ios initial_result orb];
    try reflexivity.
  destruct (get_text soup) as [[]|page_text]; [reflexivity..|].
  destruct (Re.search APP_TEXT_HINT_RE page_text); reflexivity.
Qed.


Lemma consistent_no_evidence (n : string) (c : float) :
  n <> "" -> n <> "store_link_found_on_website" ->
  PyFloat.leb (PyFloat.of_int 0) c && PyFloat.leb c (PyFloat.of_int 1) = true ->
  consistent_verdict (set_verdict n c initial_result).
Proof.
  intros Hn Hs Hc. unfold consistent_verdict.
  cbn [has_android_app has_ios_app evidence_android_url evidence_ios_url notes confidence
       set_verdict initial_result orb].
  split; [split; [discriminate|intros [h Hh]; discriminate]|].
  split; [split; [discriminate|intros [h Hh]; discriminate]|].
  split; [discriminate|]. split; [discriminate|].
  split; [split; [discriminate|intros ->; contradiction]|]. by split.
Qed.

Lemma consistent_evidence (fa fi : bool) (ea ei : option string) :
  (fa = true <-> exists h, ea = Some h) ->
  (fi = true <-> exists h, ei = Some h) ->
  (forall h, ea = Some h -> h <> "" /\ Re.search PLAYSTORE_RE h = true) ->
  (forall h, ei = Some h -> h <> "" /\ Re.search APPLE_APPS_RE h = true) ->
  fa || fi = true ->
  consistent_verdict
    {| has_android_app := fa; has_ios_app := fi;
       evidence_android_url := ea; evidence_ios_url := ei;
       notes := "store_link_found_on_website"; confidence := PyFloat.decimal 95 2 |}.
Proof.
  intros Ha Hi Hea Hei Hany. unfold consistent_verdict.
  cbn [has_android_app has_ios_app evidence_android_url evidence_ios_url notes confidence].
  split; [exact Ha|]. split; [exact Hi|]. split; [exact Hea|]. split; [exact Hei|].
  split; [by split|]. split; [discriminate|reflexivity].
Qed.

Lemma store_evidence (pattern : Re.matcher) (hrefs : list string) :
  Re.search pattern "" = false ->
  (first_match pattern hrefs = None /\ truthy_opt (first_match pattern hrefs) = false)
  \/ exists h,
       first_match pattern hrefs = Some h /\ truthy_opt (first_match pattern hrefs) = true
       /\ h <> "" /\ Re.search pattern h = true.
Proof.
  intros Hempty. destruct (first_match pattern hrefs) as [h|] eqn:Hf; [right|by left].
  apply first_match_some in Hf as (_ & _ & _ & Hh & _).
  exists h. assert (Hne : h <> "") by (intros ->; congruence).
  split; [reflexivity|]. split; [by apply truthy_spec|by split].
Qed.

Ltac flag_unset := split; [discriminate|intros [? ?]; discriminate].
Ltac flag_set := split; [intros _; eexists; reflexivity|reflexivity].
Ltac evidence_unset := intros ? ?; discriminate.
Ltac evidence_set := intros ? [= <-]; split; assumption.

Lemma scrape_body_consistent (W : World) (target : string) (st st' : io_state) (a : AppInfo) :
  scrape_body W target initial_result st = (inr a, st') ->
  consistent_verdict a /\ notes a <> "no_website_in_osm" /\ notes a <> "invalid_website_url".
Proof.
  io_unfold.
  destruct (requests_get W (requests_made st) target) as [e|resp]; [discriminate|].
  destruct (400 <=? resp_status_code resp).
  { intros [= <- _]. split; [|split; discriminate].
    apply consistent_no_evidence; [discriminate|discriminate|reflexivity]. }
  destruct (BeautifulSoup W (resp_text resp)) as [e|soup]; [discriminate|].
  destruct (select_a_href soup) as [e|anchors]; [discriminate|].
  destruct (collect_hrefs W (resp_url resp) anchors []) as [e|hrefs]; [discriminate|].
  destruct (store_evidence PLAYSTORE_RE hrefs eq_refl)
    as [[-> ->]|(play & -> & -> & Hplay & Hplay')];
    destruct (store_evidence APPLE_APPS_RE hrefs eq_refl)
      as [[-> ->]|(apple & -> & -> & Happle & Happle')];
    cbn [has_android_app has_ios_app set_android set_ios initial_result orb default].
  - destruct (get_text soup) as [e|page_text]; [discriminate|].
    destruct (Re.search APP_TEXT_HINT_RE page_text); intros [= <- _];
      (split; [|split; discriminate]);
      apply consistent_no_evidence; try discriminate; reflexivity.
  - intros [= <- _]. split; [|split; discriminate].
    apply consistent_evidence;
      [flag_unset|flag_set|evidence_unset|evidence_set|reflexivity].
  - intros [= <- _]. split; [|split; discriminate].
    apply consistent_evidence;
      [flag_set|flag_unset|evidence_set|evidence_unset|reflexivity].
  - intros [= <- _]. split; [|split; discriminate].
    apply consistent_evidence;
      [flag_set|flag_set|evidence_set|evidence_set|reflexivity].
Qed.

Lemma scrape_consistent (W : World) (website_url : string) (st : io_state) :
  exists a st',
    scrape_website_for_app_links W website_url st = (inr a, st')
    /\ consistent_verdict a
    /\ notes a <> "no_website_in_osm"
    /\ (notes a = "invalid_website_url" -> normalize_url W website_url = None).
Proof.
  unfold scrape_website_for_app_links.
  destruct (normalize_url W website_url) as [target|].
  - unfold try_except.
    destruct (scrape_body W target initial_result st) as [[[kind msg|kind msg]|a] st'] eqn:Hb.
    + eexists _, _. split; [reflexivity|]. split; [|split; discriminate].
      apply consistent_no_evidence; [discriminate|discriminate|reflexivity].
    + eexists _, _. split; [reflexivity|]. split; [|split; discriminate].
      apply consistent_no_evidence; [discriminate|discriminate|reflexivity].
    + exists a, st'. split; [reflexivity|].
      apply scrape_body_consistent in Hb as (Hc & Hn & Hi).
      split; [exact Hc|split; [exact Hn|]]. intros Hx. contradiction.
  - eexists _, _. split; [reflexivity|]. split; [|split; [discriminate|reflexivity]].
    apply consistent_no_evidence; [discriminate|discriminate|reflexivity].
Qed.

Lemma scrape_run (W : World) (website_url : string) (st : io_state) :
  exists a,
    scrape_website_for_app_links W website_url st
    = (inr a, match normalize_url W website_url with
              | Some target => tick (Get target) st
              | None => st
              end)
    /\ verdict_kind a
    /\ consistent_verdict a
    /\ notes a <> "no_website_in_osm"
    /\ (notes a = "invalid_website_url" -> normalize_url W website_url = None).
Proof.
  destruct (scrape_consistent W website_url st) as (a & st' & Hs & Hc & Hn & Hi).
  destruct (scrape_verdict_kind W website_url st) as (a' & st'' & Hs' & Hk).
  rewrite Hs in Hs'. injection Hs' as <- <-.
  pose proof (scrape_state W website_url st) as Hst. rewrite Hs in Hst. simpl in Hst.
  exists a. rewrite Hs, Hst.
  split; [reflexivity|]. split; [exact Hk|]. split; [exact Hc|]. split; [exact Hn|exact Hi].
Qed.

(** X11. The verdict of the classifier is consistent on every path: a
    flag is set exactly when its evidence URL is recorded, recorded
    evidence is a non-empty link that the store pattern matches, the notes
    are [store_link_found_on_website] exactly when a flag is set, the
    notes are never empty and the confidence lies between 0 and 1. *)
Theorem scrape_verdict_consistent (W : World) (website_url : string) (st : io_state) :
  exists a st',
    scrape_website_for_app_links W website_url st = (inr a, st')
    /\ consistent_verdict a.
Proof.
  destruct (scrape_consistent W website_url st) as (a & st' & Hs & Hc & _).
  by exists a, st'.
Qed.

(** *** The loops of [main] *)

Lemma Forall2_In_r {A B : Type} (P : A -> B -> Prop) (l : list A) (l' : list B) (y : B) :
  Forall2 P l l' -> In y l' -> exists x, In x l /\ P x y.
Proof.
  induction 1 as [|x y' l l' Hxy _ IH]; intros Hin; [destruct Hin|].
  destruct Hin as [<-|Hin]; [exists x; split; [by left|exact Hxy]|].
  destruct (IH Hin) as (x' & Hx' & HP). exists x'. split; [by right|exact HP].
Qed.

Lemma advance_site (st : io_state) (target : string) (n : nat) (events : list event) :
  advance (log (Sleep DELAY_BETWEEN_SITES_SEC) (tick (Get target) st)) n events
  = advance st (S n) ([Get target; Sleep DELAY_BETWEEN_SITES_SEC] ++ events)
  /\ advance (log (Sleep DELAY_BETWEEN_SITES_SEC) st) n events
     = advance st n ([Sleep DELAY_BETWEEN_SITES_SEC] ++ events).
Proof.
  unfold advance, log, tick. cbn [requests_made trace].
  split; f_equal; try lia; rewrite <- ?app_assoc; reflexivity.
Qed.

Lemma audit_loop_run (W : World) (restaurants : list Restaurant) :
  forall (audit_rows : list AuditRow) (st : io_state),
  exists new,
    audit_loop W restaurants audit_rows st
    = (inr (audit_rows ++ new),
       advance st (length (List.filter is_get (flat_map (site_events W) restaurants)))
         (flat_map (site_events W) restaurants))
    /\ Forall2
         (fun r row =>
            exists a,
              row = audit_row r a /\ verdict_kind a /\ consistent_verdict a
              /\ (notes a = "no_website_in_osm" <-> website r = "")
              /\ (notes a = "invalid_website_url" -> normalize_url W (website r) = None))
         restaurants new.
Proof.
  induction restaurants as [|r rest IH]; intros audit_rows st.
  - exists []. split; [|constructor]. simpl. rewrite app_nil_r.
    unfold ret, advance. simpl. rewrite app_nil_r, Nat.add_0_r. by destruct st.
  - cbn [audit_loop flat_map]. unfold site_events at 1 3.
    destruct (PyStr.truthy (website r)) eqn:Hw.
    + destruct (scrape_run W (website r) st) as (a & Hs & Hk & Hc & Hn & Hi).
      unfold bind at 1 2 3. rewrite Hs. unfold sleep, ret.
      edestruct (IH (audit_rows ++ [audit_row r a])) as (new & -> & HF).
      exists (audit_row r a :: new). rewrite <- app_assoc. split.
      * f_equal. destruct (normalize_url W (website r)) as [target|]; simpl.
        -- exact (proj1 (advance_site st target _ _)).
        -- exact (proj2 (advance_site st EmptyString _ _)).
      * constructor; [|exact HF]. exists a.
        split; [reflexivity|]. split; [exact Hk|]. split; [exact Hc|]. split; [|exact Hi].
        split; [intros Hx; contradiction|intros Hx; rewrite Hx in Hw; discriminate Hw].
    + unfold bind at 1. unfold ret at 1.
      edestruct (IH (audit_rows ++ [audit_row r no_website_verdict])) as (new & -> & HF).
      exists (audit_row r no_website_verdict :: new). rewrite <- app_assoc.
      split; [reflexivity|]. constructor; [|exact HF].
      exists no_website_verdict. split; [reflexivity|].
      split; [apply no_website_in_osm; try reflexivity; repeat split|].
      split; [|split; [|discriminate]].
      * unfold consistent_verdict, no_website_verdict.
        cbn [has_android_app has_ios_app evidence_android_url evidence_ios_url notes
             confidence orb].
        split; [split; [discriminate|intros [h Hh]; discriminate]|].
        split; [split; [discriminate|intros [h Hh]; discriminate]|].
        split; [discriminate|]. split; [discriminate|].
        split; [split; discriminate|]. by split.
      * split; [intros _|reflexivity]. by destruct (website r).
Qed.

(** X12. Every row of the audit agrees with itself: each flag is 0 or 1
    and is 1 exactly when its evidence column is filled, [has_any_app] is
    the larger of the two flags and is 1 exactly when the notes are
    [store_link_found_on_website], the notes are [no_website_in_osm]
    exactly when the record has no website, and the confidence column is
    one of five strings. *)
Theorem audit_rows_consistent (W : World) (restaurants : list Restaurant) (st : io_state) :
  exists audit_rows st',
    audit_loop W restaurants [] st = (inr audit_rows, st')
    /\ forall row, In row audit_rows ->
         (row_has_android_app row = 1 /\ row_evidence_android_url row <> ""
          \/ row_has_android_app row = 0 /\ row_evidence_android_url row = "")
         /\ (row_has_ios_app row = 1 /\ row_evidence_ios_url row <> ""
             \/ row_has_ios_app row = 0 /\ row_evidence_ios_url row = "")
         /\ row_has_any_app row = Z.max (row_has_android_app row) (row_has_ios_app row)
         /\ (row_has_any_app row = 1 <-> row_notes row = "store_link_found_on_website")
         /\ (row_notes row = "no_website_in_osm" <-> website (restaurant row) = "")
         /\ In (row_confidence row) ["0.10"; "0.20"; "0.60"; "0.85"; "0.95"].
Proof.
  destruct (audit_loop_run W restaurants [] st) as (rows & Hl & HF).
  eexists rows, _. split; [exact Hl|].
  intros row Hrow.
  destruct (Forall2_In_r _ _ _ _ HF Hrow) as (r & _ & a & -> & Hk & Hc & Hno & _).
  destruct Hc as (Ha & Hi & Hea & Hei & Hany & _ & _).
  cbn [audit_row row_has_android_app row_has_ios_app row_has_any_app row_evidence_android_url
       row_evidence_ios_url row_notes row_confidence restaurant].
  split; [|split; [|split; [|split; [|split]]]].
  - destruct (has_android_app a).
    + left. split; [reflexivity|]. destruct Ha as [[h Hh] _]; [reflexivity|].
      rewrite Hh. by apply Hea.
    + right. split; [reflexivity|]. destruct (evidence_android_url a) as [h|]; [|reflexivity].
      destruct Ha as [_ Ha]. discriminate Ha. by exists h.
  - destruct (has_ios_app a).
    + left. split; [reflexivity|]. destruct Hi as [[h Hh] _]; [reflexivity|].
      rewrite Hh. by apply Hei.
    + right. split; [reflexivity|]. destruct (evidence_ios_url a) as [h|]; [|reflexivity].
      destruct Hi as [_ Hi]. discriminate Hi. by exists h.
  - by destruct (has_android_app a), (has_ios_app a).
  - rewrite <- Hany. by destruct (has_android_app a || has_ios_app a).
  - exact Hno.
  - destruct Hk as [_ ->|? _ ->|? _ ->|? _ ->|_ ->|_ ->|_ ->|_ ->]; vm_compute; tauto.
Qed.

(** X13. The audit loop visits the restaurants in order: for a record
    with a website it makes the one GET of the classifier, when the website
    normalises, and then pauses 0.6 s; for a record without a website it
    does nothing.  So it makes at most one request per restaurant and
    never raises. *)
Theorem audit_loop_trace (W : World) (restaurants : list Restaurant) (st : io_state) :
  let events := flat_map (site_events W) restaurants in
  exists audit_rows st',
    audit_loop W restaurants [] st = (inr audit_rows, st')
    /\ trace st' = trace st ++ events
    /\ requests_made st' = (requests_made st + length (List.filter is_get events))%nat
    /\ (length (List.filter is_get events) <= length restaurants)%nat
    /\ length audit_rows = length restaurants.
Proof.
  cbv zeta. destruct (audit_loop_run W restaurants [] st) as (rows & Hl & HF).
  eexists rows, _. split; [exact Hl|]. split; [reflexivity|]. split; [reflexivity|].
  split; [|symmetry; by eapply Forall2_length].
  clear. induction restaurants as [|r rest IH]; [reflexivity|].
  cbn [flat_map]. rewrite List.filter_app, length_app. unfold site_events at 1.
  destruct (PyStr.truthy (website r)); [|simpl; lia].
  destruct (normalize_url W (website r)); simpl; lia.
Qed.

Lemma normalize_element_record (W : World) (el : Element) (key : string) (r : Restaurant) :
  normalize_element W el = Some (key, r) ->
  name r <> "" /\ source r = "OSM/Overpass"
  /\ (website r = "" \/ normalize_url W (website r) = Some (website r))
  /\ osm_id r = el_id el /\ osm_type r = default "" (el_type el).
Proof.
  unfold normalize_element.
  destruct (tag (default ∅ (el_tags el)) "name") as [nm|] eqn:Hname; [|discriminate].
  apply tag_truthy in Hname as [_ Hname].
  set (w := or_else _ _).
  assert (Hw : (if truthy_opt w then normalize_url W (default "" w) else None) = None
               \/ exists u, (if truthy_opt w then normalize_url W (default "" w) else None)
                            = Some u /\ normalize_url W u = Some u).
  { destruct (truthy_opt w); [|by left].
    destruct (normalize_url W (default "" w)) as [u|] eqn:Hu; [right|by left].
    exists u. split; [reflexivity|]. by eapply normalize_url_again. }
  destruct (el_lat el), (el_lon el); intros [= <- <-];
    cbn [name source website osm_id osm_type];
    (split; [exact Hname|]); (split; [reflexivity|]); (split; [|by split]);
    (destruct Hw as [->|(u & -> & Hu)]; [by left|by right]).
Qed.

Lemma restaurants_loop_In (W : World) (els : list Element) (r : Restaurant) :
  In r (restaurants_loop W els ∅ []) ->
  exists el key, In el els /\ normalize_element W el = Some (key, r).
Proof.
  rewrite restaurants_loop_first_seen. simpl. intros Hr.
  apply in_map_iff in Hr as ([key r'] & <- & Hin). simpl.
  apply list_elem_of_In in Hin.
  eapply elem_of_submseteq in Hin; [|apply sublist_submseteq, first_seen_sublist].
  apply list_elem_of_omap in Hin as (el & Hel & Hn).
  exists el, key. split; [by apply list_elem_of_In|exact Hn].
Qed.

(** X14. Every record the first loop of [main] keeps has a non-empty name
    and the source [OSM/Overpass], carries the type and the id of an
    element of the input, and has a website that is either empty or a URL
    that [normalize_url] leaves unchanged; there are never more records
    than elements. *)
Theorem restaurants_well_formed (W : World) (els : list Element) :
  let out := restaurants_loop W els ∅ [] in
  (length out <= length els)%nat
  /\ forall r, In r out ->
       name r <> ""
       /\ source r = "OSM/Overpass"
       /\ (website r = "" \/ normalize_url W (website r) = Some (website r))
       /\ exists el, In el els /\ osm_id r = el_id el /\ osm_type r = default "" (el_type el).
Proof.
  cbv zeta. split.
  - rewrite restaurants_loop_first_seen. simpl. rewrite length_map.
    etransitivity; [apply sublist_length, first_seen_sublist|].
    clear. induction els as [|el els IH]; [reflexivity|].
    unfold omap in IH. simpl. destruct (normalize_element W el); simpl; lia.
  - intros r (el & key & Hel & Hn)%restaurants_loop_In.
    apply normalize_element_record in Hn as (Hname & Hsrc & Hweb & Hid & Hty).
    split; [exact Hname|]. split; [exact Hsrc|]. split; [exact Hweb|]. by exists el.
Qed.

(** X15. In the pipeline of [main] the classifier is never handed a URL it
    rejects: every record with a website is fetched with one GET of that
    very website, followed by the pause, so the audit makes as many
    requests as there are records with a website and no row carries
    [invalid_website_url]. *)
Theorem audited_websites_are_fetched (W : World) (els : list Element) (st : io_state) :
  let restaurants := restaurants_loop W els ∅ [] in
  (forall r, In r restaurants ->
     site_events W r
     = if PyStr.truthy (website r)
       then [Get (website r); Sleep DELAY_BETWEEN_SITES_SEC] else [])
  /\ exists audit_rows st',
       audit_loop W restaurants [] st = (inr audit_rows, st')
       /\ trace st' = trace st ++ flat_map (site_events W) restaurants
       /\ requests_made st'
          = (requests_made st
             + length (List.filter (fun r => PyStr.truthy (website r)) restaurants))%nat
       /\ forall row, In row audit_rows -> row_notes row <> "invalid_website_url".
Proof.
  cbv zeta.
  assert (Hsite : forall r, In r (restaurants_loop W els ∅ []) ->
            site_events W r
            = if PyStr.truthy (website r)
              then [Get (website r); Sleep DELAY_BETWEEN_SITES_SEC] else []).
  { intros r (el & key & _ & Hn)%restaurants_loop_In.
    apply normalize_element_record in Hn as (_ & _ & Hweb & _).
    unfold site_events. destruct (PyStr.truthy (website r)) eqn:Hw; [|reflexivity].
    destruct Hweb as [Hweb| ->]; [rewrite Hweb in Hw; discriminate Hw|reflexivity]. }
  split; [exact Hsite|].
  destruct (audit_loop_run W (restaurants_loop W els ∅ []) [] st) as (rows & Hl & HF).
  eexists rows, _. split; [exact Hl|]. split; [reflexivity|]. split.
  - cbn [advance requests_made]. f_equal. clear -Hsite.
    induction (restaurants_loop W els ∅ []) as [|r rest IH]; [reflexivity|].
    cbn [flat_map List.filter]. rewrite List.filter_app, length_app.
    rewrite IH by (intros r' Hr'; apply Hsite; by right).
    rewrite Hsite by (by left). by destruct (PyStr.truthy (website r)).
  - intros row Hrow.
    destruct (Forall2_In_r _ _ _ _ HF Hrow) as (r & Hr & a & -> & _ & _ & Hno & Hinv).
    cbn [audit_row row_notes]. intros Hnotes. specialize (Hinv Hnotes).
    apply restaurants_loop_In in Hr as (el & key & _ & Hn).
    apply normalize_element_record in Hn as (_ & _ & [Hweb|Hweb] & _).
    + apply Hno in Hweb. rewrite Hnotes in Hweb. discriminate Hweb.
    + rewrite Hinv in Hweb. discriminate Hweb.
Qed.

(** *** The no-app filter *)

Lemma no_app_rows_cons (row : AuditRow) (rest out : list AuditRow) :
  no_app_rows (row :: rest) = Some out ->
  exists keep kept,
    keep_no_app row = Some keep /\ no_app_rows rest = Some kept
    /\ out = if keep then row :: kept else kept.
Proof.
  simpl. destruct (keep_no_app row) as [keep|]; [|discriminate].
  destruct (no_app_rows rest) as [kept|]; [|discriminate].
  intros [= <-]. by exists keep, kept.
Qed.

Lemma no_app_rows_sublist (rows : list AuditRow) :
  forall out, no_app_rows rows = Some out -> sublist out rows.
Proof.
  induction rows as [|row rest IH]; intros out.
  - intros [= <-]. constructor.
  - intros (keep & kept & _ & Hrest & ->)%no_app_rows_cons.
    destruct keep; [apply sublist_skip|apply sublist_cons]; by apply IH.
Qed.

(** X16. The no-app list is a filter of the audit: it keeps the rows in
    their order, filtering it again changes nothing, and the filter of two
    audits put together is the two filters put together. *)
Theorem no_app_rows_filter (rows out : list AuditRow) :
  no_app_rows rows = Some out ->
  sublist out rows
  /\ no_app_rows out = Some out
  /\ forall rows2 out2,
       no_app_rows rows2 = Some out2 -> no_app_rows (rows ++ rows2) = Some (out ++ out2).
Proof.
  intros Hout. split; [by apply no_app_rows_sublist|]. split.
  - revert out Hout. induction rows as [|row rest IH]; intros out.
    + by intros [= <-].
    + intros (keep & kept & Hkeep & Hrest & ->)%no_app_rows_cons.
      destruct keep; [|by apply IH]. simpl. by rewrite Hkeep, (IH kept Hrest).
  - intros rows2 out2 H2. revert out Hout.
    induction rows as [|row rest IH]; intros out.
    + by intros [= <-].
    + intros (keep & kept & Hkeep & Hrest & ->)%no_app_rows_cons.
      simpl. rewrite Hkeep, (IH kept Hrest). by destruct keep.
Qed.

(** *** [main] *)

(** X17. [main] can fail only while it fetches: when the tiled fetch
    raises, [main] raises the same exception without visiting any website;
    when the fetch returns, [main] returns, with one audit row per record
    of the first loop, in order, and a no-app list that is a sub-list of
    the audit. *)
Theorem main_fails_only_in_the_fetch (W : World) (st : io_state) :
  match overpass_fetch_restaurants_tiled W RAWALPINDI_BBOX st with
  | (inl e, st1) => main W st = (inl e, st1)
  | (inr els, st1) =>
      exists audit_rows out st',
        main W st = (inr (audit_rows, out), st')
        /\ audit_loop W (restaurants_loop W els ∅ []) [] st1 = (inr audit_rows, st')
        /\ map restaurant audit_rows = restaurants_loop W els ∅ []
        /\ sublist out audit_rows
  end.
Proof.
  unfold main, bind.
  destruct (overpass_fetch_restaurants_tiled W RAWALPINDI_BBOX st) as [[e|els] st1];
    [reflexivity|].
  destruct (audit_loop_run W (restaurants_loop W els ∅ []) [] st1) as (rows & Hl & HF).
  simpl in Hl. rewrite Hl.
  destruct (audit_rows_no_app (restaurants_loop W els ∅ []) rows) as (out & Hout & _).
  { eapply Forall2_impl; [exact HF|]. intros r row (a & Ha & Hk & _). by exists a. }
  rewrite Hout. eexists rows, out, _. split; [reflexivity|]. split; [reflexivity|].
  split; [|by apply no_app_rows_sublist].
  clear -HF. induction HF as [|r row rs rows' (a & -> & _) _ IH]; simpl; congruence.
Qed.

(** *** Degenerate grids *)


(** *** Counting what the seen-set loops keep *)



(** *** The store patterns *)

Lemma str_app_assoc (a b c : string) : (a +:+ b) +:+ c = a +:+ b +:+ c.
Proof.
  induction a as [|x a IH]; [reflexivity|].
  change (String x ((a +:+ b) +:+ c) = String x (a +:+ b +:+ c)). by rewrite IH.
Qed.

Lemma lower_app (a b : string) : PyStr.lower (a +:+ b) = PyStr.lower a +:+ PyStr.lower b.
Proof.
  induction a as [|x a IH]; [reflexivity|].
  change (String (PyStr.lower_char x) (PyStr.lower (a +:+ b))
          = String (PyStr.lower_char x) (PyStr.lower a +:+ PyStr.lower b)).
  by rewrite IH.
Qed.

Lemma lower_app_inv (a b : string) :
  forall s, PyStr.lower s = a +:+ b ->
  exists s1 s2, s = s1 +:+ s2 /\ PyStr.lower s1 = a /\ PyStr.lower s2 = b.
Proof.
  induction a as [|x a IH]; intros s Hs.
  - by exists EmptyString, s.
  - destruct s as [|d s]; [discriminate Hs|].
    change (String (PyStr.lower_char d) (PyStr.lower s) = String x (a +:+ b)) in Hs.
    injection Hs as Hd Hs. destruct (IH s Hs) as (s1 & s2 & -> & H1 & H2).
    exists (String d s1), s2. split; [reflexivity|]. split; [|exact H2].
    simpl. by rewrite Hd, H1.
Qed.

Lemma matches_at_In (m : Re.matcher) (p : Re.pos) :
  Re.matches_at m p = true <-> exists q, In q (m p).
Proof.
  unfold Re.matches_at. destruct (m p) as [|q l].
  - split; [discriminate|]. by intros [q []].
  - split; [|reflexivity]. intros _. exists q. by left.
Qed.

Lemma lit_sound (p : string) :
  forall prev x q, In q (Re.lit p (prev, x)) ->
  exists mid, x = mid +:+ q.2 /\ PyStr.lower mid = PyStr.lower p.
Proof.
  induction p as [|c p IH]; intros prev x q.
  - intros [<-|[]]. by exists EmptyString.
  - cbn [Re.lit]. unfold Re.seq. intros (r & Hr & Hq)%in_flat_map.
    unfold Re.char_if in Hr. destruct x as [|d x]; [destruct Hr|].
    destruct (Re.ci c d) eqn:Hci; [|destruct Hr]. destruct Hr as [<-|[]].
    apply IH in Hq as (mid & -> & Hmid). exists (String d mid).
    split; [reflexivity|]. simpl. rewrite Hmid. f_equal.
    unfold Re.ci in Hci. apply Ascii.eqb_eq in Hci. by symmetry.
Qed.

Lemma lit_complete (p : string) :
  forall prev mid rest, PyStr.lower mid = PyStr.lower p ->
  exists prev', In (prev', rest) (Re.lit p (prev, mid +:+ rest)).
Proof.
  induction p as [|c p IH]; intros prev mid rest Hmid.
  - destruct mid; [|discriminate Hmid]. exists prev. by left.
  - destruct mid as [|d mid]; [discriminate Hmid|].
    simpl in Hmid. injection Hmid as Hd Hmid.
    destruct (IH (Some d) mid rest Hmid) as [prev' Hin]. exists prev'.
    cbn [Re.lit]. unfold Re.seq. apply in_flat_map. exists (Some d, mid +:+ rest).
    split; [|exact Hin].
    change (String d mid +:+ rest) with (String d (mid +:+ rest)). unfold Re.char_if.
    replace (Re.ci c d) with true; [by left|].
    symmetry. unfold Re.ci. apply Ascii.eqb_eq. by symmetry.
Qed.

Lemma lit_ignores_prev (c : ascii) (p : string) (prev : option ascii) (x : string) :
  Re.lit (String c p) (prev, x) = Re.lit (String c p) (None, x).
Proof. by destruct x. Qed.

Lemma lit_matches (c : ascii) (p : string) (prev : option ascii) (x : string) :
  Re.matches_at (Re.lit (String c p)) (prev, x) = true <->
  exists mid rest, x = mid +:+ rest /\ PyStr.lower mid = PyStr.lower (String c p).
Proof.
  rewrite matches_at_In. split.
  - intros [q (mid & -> & Hmid)%lit_sound]. by exists mid, q.2.
  - intros (mid & rest & -> & Hmid).
    destruct (lit_complete (String c p) prev mid rest Hmid) as [prev' Hin]. eauto.
Qed.

Lemma seq_lit_matches (p : string) (t : Re.matcher) :
  (forall prev x, t (prev, x) = t (None, x)) ->
  forall prev x,
  Re.matches_at (Re.seq (Re.lit p) t) (prev, x) = true <->
  exists mid rest,
    x = mid +:+ rest /\ PyStr.lower mid = PyStr.lower p
    /\ Re.matches_at t (None, rest) = true.
Proof.
  intros Ht prev x. rewrite matches_at_In. unfold Re.seq. split.
  - intros [q Hq]. apply in_flat_map in Hq as ([r0 r] & Hr & Hq).
    apply lit_sound in Hr as (mid & -> & Hmid). exists mid, r.
    split; [reflexivity|]. split; [exact Hmid|].
    apply matches_at_In. exists q. by rewrite <- (Ht r0 r).
  - intros (mid & rest & -> & Hmid & [q Hq]%matches_at_In).
    destruct (lit_complete p prev mid rest Hmid) as [prev' Hin].
    exists q. apply in_flat_map. exists (prev', rest). split; [exact Hin|].
    by rewrite Ht.
Qed.

Lemma optional_s_ignores_prev (t : Re.matcher) :
  (forall prev x, t (prev, x) = t (None, x)) ->
  forall prev x,
  Re.seq (Re.opt (Re.lit "s")) t (prev, x) = Re.seq (Re.opt (Re.lit "s")) t (None, x).
Proof.
  intros Ht prev x. unfold Re.seq, Re.opt, Re.alt, Re.eps.
  rewrite !flat_map_app, lit_ignores_prev. simpl. by rewrite Ht.
Qed.

Lemma store_prefix_matches (t : Re.matcher) :
  (forall prev x, t (prev, x) = t (None, x)) ->
  forall prev x,
  Re.matches_at (Re.seq (Re.lit "http") (Re.seq (Re.opt (Re.lit "s")) t)) (prev, x) = true <->
  exists mid rest,
    x = mid +:+ rest
    /\ (PyStr.lower mid = "http" \/ PyStr.lower mid = "https")
    /\ Re.matches_at t (None, rest) = true.
Proof.
  intros Ht prev x.
  rewrite (seq_lit_matches "http" _ (optional_s_ignores_prev t Ht)).
  assert (Hopt : forall y,
            Re.matches_at (Re.seq (Re.opt (Re.lit "s")) t) (None, y) = true <->
            Re.matches_at (Re.seq (Re.lit "s") t) (None, y) = true
            \/ Re.matches_at t (None, y) = true).
  { intros y. rewrite !matches_at_In. unfold Re.seq at 1, Re.opt, Re.alt, Re.eps.
    rewrite flat_map_app. simpl. rewrite app_nil_r. split.
    - intros [q [Hq|Hq]%in_app_or]; eauto.
    - intros [[q Hq]|[q Hq]]; exists q; apply in_or_app; [by left|by right]. }
  split.
  - intros (m1 & rest1 & -> & H1 & [Hs|Hrest]%Hopt).
    + apply (seq_lit_matches "s" t Ht) in Hs as (m2 & rest2 & -> & H2 & Hrest).
      exists (m1 +:+ m2), rest2. split; [by rewrite str_app_assoc|].
      split; [right; by rewrite lower_app, H1, H2|exact Hrest].
    + exists m1, rest1. split; [reflexivity|]. split; [by left|exact Hrest].
  - intros (mid & rest & -> & [Hmid|Hmid] & Hrest).
    + exists mid, rest. split; [reflexivity|]. split; [exact Hmid|].
      apply Hopt. by right.
    + apply (lower_app_inv "http" "s") in Hmid as (m1 & m2 & -> & H1 & H2).
      exists m1, (m2 +:+ rest). split; [by rewrite str_app_assoc|]. split; [exact H1|].
      apply Hopt. left. apply (seq_lit_matches "s" t Ht). by exists m2, rest.
Qed.

Lemma search_spec (m : Re.matcher) (P : string -> Prop) :
  (forall prev x, Re.matches_at m (prev, x) = true <-> P x) ->
  forall s, Re.search m s = true <-> exists pre rest, s = pre +:+ rest /\ P rest.
Proof.
  intros Hm s. unfold Re.search. generalize (@None ascii) as prev.
  induction s as [|c s IH]; intros prev; cbn [Re.search_from].
  - rewrite orb_false_r, Hm. split.
    + intros HP. by exists EmptyString, EmptyString.
    + intros (pre & rest & Hs & HP). destruct pre; [|discriminate Hs].
      change (EmptyString = rest) in Hs. by subst rest.
  - rewrite orb_true_iff, Hm, IH. split.
    + intros [HP|(pre & rest & -> & HP)].
      * by exists EmptyString, (String c s).
      * by exists (String c pre), rest.
    + intros (pre & rest & Hs & HP). destruct pre as [|d pre].
      * left. change (String c s = rest) in Hs. by subst rest.
      * right. change (String c s = String d (pre +:+ rest)) in Hs.
        injection Hs as <- ->. by exists pre, rest.
Qed.

(** X20. What counts as a store link.  The Play Store pattern is found in
    a link exactly when the link contains, in any letter case,
    [http://play.google.com/store/apps/details?id=] or its [https] form,
    followed by at least one letter, digit, point or underscore; the App
    Store pattern exactly when the link contains, in any letter case,
    [http://apps.apple.com/] or its [https] form.  The match may start
    anywhere in the link. *)
Theorem store_patterns_spec (h : string) :
  (Re.search PLAYSTORE_RE h = true <->
   exists pre mid c post,
     h = pre +:+ mid +:+ String c post
     /\ (PyStr.lower mid = "http://play.google.com/store/apps/details?id="
         \/ PyStr.lower mid = "https://play.google.com/store/apps/details?id=")
     /\ package_char c = true)
  /\ (Re.search APPLE_APPS_RE h = true <->
      exists pre mid post,
        h = pre +:+ mid +:+ post
        /\ (PyStr.lower mid = "http://apps.apple.com/"
            \/ PyStr.lower mid = "https://apps.apple.com/")).
Proof.
  split.
  - rewrite (search_spec PLAYSTORE_RE
               (fun x => exists mid c post,
                  x = mid +:+ String c post
                  /\ (PyStr.lower mid = "http://play.google.com/store/apps/details?id="
                      \/ PyStr.lower mid = "https://play.google.com/store/apps/details?id=")
                  /\ package_char c = true)).
    { split.
      - intros (pre & rest & -> & mid & c & post & -> & H). by exists pre, mid, c, post.
      - intros (pre & mid & c & post & -> & H).
        exists pre, (mid +:+ String c post). split; [reflexivity|]. by exists mid, c, post. }
    intros prev x. unfold PLAYSTORE_RE.
    assert (Hmany : forall prev y, Re.many1 package_char (prev, y)
                                   = Re.many1 package_char (None, y)) by reflexivity.
    assert (Htail : forall prev y,
              Re.seq (Re.lit "://play.google.com/store/apps/details?id=")
                (Re.many1 package_char) (prev, y)
              = Re.seq (Re.lit "://play.google.com/store/apps/details?id=")
                  (Re.many1 package_char) (None, y)).
    { intros prev' y. unfold Re.seq. by rewrite lit_ignores_prev. }
    rewrite (store_prefix_matches _ Htail). split.
    + intros (m1 & rest1 & -> & H1 & Hrest).
      apply (seq_lit_matches _ _ Hmany) in Hrest as (m2 & rest2 & -> & H2 & Hrun).
      destruct rest2 as [|c post]; [discriminate Hrun|].
      exists (m1 +:+ m2), c, post. split; [by rewrite str_app_assoc|]. split.
      * rewrite lower_app, H2. destruct H1 as [-> | ->]; [by left|by right].
      * unfold Re.matches_at, Re.many1 in Hrun. simpl in Hrun.
        by destruct (package_char c).
    + intros (mid & c & post & -> & Hmid & Hc).
      assert (Hsplit : exists m1 m2,
                mid = m1 +:+ m2
                /\ (PyStr.lower m1 = "http" \/ PyStr.lower m1 = "https")
                /\ PyStr.lower m2 = "://play.google.com/store/apps/details?id=").
      { destruct Hmid as [Hmid|Hmid].
        - apply (lower_app_inv "http" "://play.google.com/store/apps/details?id=")
            in Hmid as (m1 & m2 & -> & H1 & H2).
          exists m1, m2. split; [reflexivity|]. split; [by left|exact H2].
        - apply (lower_app_inv "https" "://play.google.com/store/apps/details?id=")
            in Hmid as (m1 & m2 & -> & H1 & H2).
          exists m1, m2. split; [reflexivity|]. split; [by right|exact H2]. }
      destruct Hsplit as (m1 & m2 & -> & H1 & H2).
      exists m1, (m2 +:+ String c post). split; [by rewrite str_app_assoc|].
      split; [exact H1|]. apply (seq_lit_matches _ _ Hmany).
      exists m2, (String c post). split; [reflexivity|]. split; [exact H2|].
      unfold Re.matches_at, Re.many1. simpl. rewrite Hc.
      by destruct (Re.many1_from package_char post).
  - rewrite (search_spec APPLE_APPS_RE
               (fun x => exists mid post,
                  x = mid +:+ post
                  /\ (PyStr.lower mid = "http://apps.apple.com/"
                      \/ PyStr.lower mid = "https://apps.apple.com/"))).
    { split.
      - intros (pre & rest & -> & mid & post & -> & H). by exists pre, mid, post.
      - intros (pre & mid & post & -> & H).
        exists pre, (mid +:+ post). split; [reflexivity|]. by exists mid, post. }
    intros prev x. unfold APPLE_APPS_RE.
    rewrite (store_prefix_matches _ (lit_ignores_prev _ _)). split.
    + intros (m1 & rest1 & -> & H1 & Hrest).
      apply lit_matches in Hrest as (m2 & rest2 & -> & H2).
      exists (m1 +:+ m2), rest2. split; [by rewrite str_app_assoc|].
      rewrite lower_app, H2. destruct H1 as [-> | ->]; [by left|by right].
    + intros (mid & post & -> & Hmid).
      assert (Hsplit : exists m1 m2,
                mid = m1 +:+ m2
                /\ (PyStr.lower m1 = "http" \/ PyStr.lower m1 = "https")
                /\ PyStr.lower m2 = "://apps.apple.com/").
      { destruct Hmid as [Hmid|Hmid].
        - apply (lower_app_inv "http" "://apps.apple.com/") in Hmid as (m1 & m2 & -> & H1 & H2).
          exists m1, m2. split; [reflexivity|]. split; [by left|exact H2].
        - apply (lower_app_inv "https" "://apps.apple.com/") in Hmid as (m1 & m2 & -> & H1 & H2).
          exists m1, m2. split; [reflexivity|]. split; [by right|exact H2]. }
      destruct Hsplit as (m1 & m2 & -> & H1 & H2).
      exists m1, (m2 +:+ post). split; [by rewrite str_app_assoc|].
      split; [exact H1|]. apply lit_matches. by exists m2, post.
Qed.

(** *** The no-app list of an audit *)

Lemma clean_homepage_row (r : Restaurant) (a : AppInfo) :
  verdict_kind a ->
  (notes a = "no_website_in_osm" <-> website r = "") ->
  notes a = "no_store_links_found_on_homepage" ->
  no_app_condition (audit_row r a).
Proof.
  pose proof confidence_readback as (_ & _ & _ & H85 & _ & _).
  intros Hk Hno Hn. unfold no_app_condition, audit_row.
  cbn [restaurant row_has_any_app row_confidence row_notes].
  split; [|split; [|split; [|by left]]].
  - intros Hw. apply Hno in Hw. rewrite Hn in Hw. discriminate Hw.
  - destruct Hk as [Hn' _ _|k Hn' _ _|s Hn' _ _|k Hn' _ _|Hn' _ _|Hn' _ _|Hn' _ _|_ _ Hev];
      try (rewrite Hn in Hn'; discriminate Hn').
    by destruct Hev as (-> & -> & _).
  - destruct Hk as [Hn' _ _|k Hn' _ _|s Hn' _ _|k Hn' _ _|Hn' _ _|Hn' _ _|Hn' _ _|_ Hc _];
      try (rewrite Hn in Hn'; discriminate Hn').
    rewrite Hc. exists (PyFloat.decimal 85 2). exact H85.
Qed.

(** X21. After an audit the no-app list holds exactly the rows whose notes
    are [no_store_links_found_on_homepage]: none of them is dropped by the
    other conditions of the filter, and no other row passes. *)
Theorem no_app_rows_exactly_clean_homepages (W : World) (restaurants : list Restaurant)
    (st : io_state) :
  exists audit_rows st' out,
    audit_loop W restaurants [] st = (inr audit_rows, st')
    /\ no_app_rows audit_rows = Some out
    /\ forall row,
         In row out <->
         In row audit_rows /\ row_notes row = "no_store_links_found_on_homepage".
Proof.
  destruct (audit_loop_run W restaurants [] st) as (rows & Hl & HF).
  destruct (audit_rows_no_app restaurants rows) as (out & Hout & Hclean).
  { eapply Forall2_impl; [exact HF|]. intros r row (a & Ha & Hk & _). by exists a. }
  eexists rows, _, out. split; [exact Hl|]. split; [exact Hout|].
  intros row. rewrite (no_app_rows_In rows out Hout row). split.
  - intros [Hin Hcond]. split; [exact Hin|].
    apply Hclean. by apply (no_app_rows_In rows out Hout row).
  - intros [Hin Hn]. split; [exact Hin|].
    destruct (Forall2_In_r _ _ _ _ HF Hin) as (r & _ & a & -> & Hk & _ & Hno & _).
    by apply clean_homepage_row.
Qed.

(** *** The separator of the key *)

Lemma strip_around_bar (a b : string) :
  PyStr.strip a = a -> PyStr.strip b = b ->
  PyStr.strip (a +:+ "|" +:+ b) = a +:+ "|" +:+ b.
Proof.
  intros Ha Hb.
  assert (Hrb : PyStr.rstrip_by PyStr.isspace b = b).
  { rewrite <- Hb. apply rstrip_idem. }
  assert (Hla : PyStr.lstrip_by PyStr.isspace a = a).
  { rewrite <- Ha. apply lstrip_rstrip_fixed. }
  assert (Htail : PyStr.rstrip_by PyStr.isspace ("|" +:+ b) = "|" +:+ b).
  { destruct b as [|c b]; [reflexivity|].
    rewrite (rstrip_app PyStr.isspace "|" (String c b)) by (by rewrite Hrb).
    by rewrite Hrb. }
  unfold PyStr.strip.
  assert (Hl : PyStr.lstrip_by PyStr.isspace (a +:+ "|" +:+ b) = a +:+ "|" +:+ b).
  { destruct (lstrip_head PyStr.isspace a) as [E|(c & r & E & Hc)];
      rewrite Hla in E; subst a; [reflexivity|].
    change (String c r +:+ "|" +:+ b) with (String c (r +:+ "|" +:+ b)).
    simpl. by rewrite Hc. }
  rewrite Hl, rstrip_app by (by rewrite Htail). by rewrite Htail.
Qed.

(** X22. The key does not keep its parts apart: the separator may occur in
    a name and in a website, so a name [a|b] with website [c] and a name
    [a] with website [b|c] have the same key, for [a], [b] and [c] without
    surrounding whitespace. *)
Theorem dedupe_key_separator_collision (W : World) (a b c : string) (lat lon : option float) :
  PyStr.strip a = a -> PyStr.strip b = b -> PyStr.strip c = c ->
  dedupe_key W (a +:+ "|" +:+ b) c lat lon = dedupe_key W a (b +:+ "|" +:+ c) lat lon.
Proof.
  intros Ha Hb Hc. unfold dedupe_key.
  rewrite (strip_around_bar a b Ha Hb), (strip_around_bar b c Hb Hc), Ha, Hc.
  rewrite !lower_app. change (PyStr.lower "|") with "|".
  destruct lat, lon; by rewrite !str_app_assoc.
Qed.

(** ** The further properties at concrete inputs *)

Lemma normalize_url_idempotent_witness :
  normalize_url demo_world " cafex.com " = Some "https://cafex.com"
  /\ normalize_url demo_world "https://cafex.com" = Some "https://cafex.com".
Proof.
  split; [reflexivity|].
  apply (normalize_url_idempotent demo_world " cafex.com " "https://cafex.com" eq_refl).
Defined.

Lemma normalize_url_result_shape_witness :
  normalize_url demo_world " cafex.com " = Some "https://cafex.com"
  /\ "https://cafex.com" = "https://" +:+ PyStr.strip " cafex.com "
  /\ PyStr.strip "https://cafex.com" = "https://cafex.com"
  /\ exists parsed,
       urlparse demo_world "https://cafex.com" = Some parsed
       /\ (scheme parsed = "http" \/ scheme parsed = "https")
       /\ netloc parsed <> "".
Proof.
  split; [reflexivity|].
  destruct (normalize_url_result_shape demo_world " cafex.com " "https://cafex.com" eq_refl)
    as (_ & Hu & Hs & _ & Hp).
  split; [exact Hu|]. split; [exact Hs|exact Hp].
Defined.

Lemma normalize_url_ignores_padding_witness :
  normalize_url demo_world (" " +:+ "cafex.com" +:+ "  ") = normalize_url demo_world "cafex.com".
Proof.
  apply (normalize_url_ignores_padding demo_world " " "cafex.com" "  "); reflexivity.
Defined.

Lemma dedupe_key_ignores_case_and_padding_witness :
  dedupe_key demo_world (" " +:+ "Cafe X" +:+ "") ("" +:+ "HTTPS://CafeX.com" +:+ "  ")
    None None
  = dedupe_key demo_world "cafe x" "https://cafex.com" None None.
Proof.
  apply (dedupe_key_ignores_case_and_padding demo_world "Cafe X" "cafe x"
           "HTTPS://CafeX.com" "https://cafex.com" " " "" "" "  "); reflexivity.
Defined.

Lemma overpass_no_attempts_witness :
  overpass_post_with_retries demo_world "query" 0 start
  = (inl (OtherException "RuntimeError" "Overpass failed after retries. Last error: None"),
     start).
Proof. apply (overpass_no_attempts demo_world "query" 0 start). lia. Defined.

Lemma no_app_rows_filter_witness :
  exists out,
    no_app_rows demo_rows = Some out
    /\ length out = 1%nat
    /\ sublist out demo_rows
    /\ no_app_rows out = Some out.
Proof.
  destruct (no_app_rows demo_rows) as [out|] eqn:Hout; [|vm_compute in Hout; discriminate Hout].
  exists out. split; [reflexivity|].
  destruct (no_app_rows_filter demo_rows out Hout) as (Hsub & Hidem & _).
  split; [|split; assumption].
  vm_compute in Hout. by injection Hout as <-.
Defined.

Lemma dedupe_key_separator_collision_witness :
  dedupe_key demo_world ("grill" +:+ "|" +:+ "bar") "https://x.pk" None None
  = dedupe_key demo_world "grill" ("bar" +:+ "|" +:+ "https://x.pk") None None.
Proof.
  apply (dedupe_key_separator_collision demo_world "grill" "bar" "https://x.pk"); reflexivity.
Defined.
